(** * qagent: the tool-calling dialogue loop and the optimize-and-benchmark loop

    A shallow embedding of [qagent/agent.py], [qagent/cli.py] and the
    benchmarking part of [qagent/duckdb_tools.py].

    Python values are an inductive type of JSON-shaped data, dictionaries are
    association lists in insertion order, floats are the kernel's binary64
    numbers, and strings are sequences of code points below 256.  The
    language-model backend, the database connection, [json.loads],
    [json.dumps] and [str()] of a non-string are collaborators of the program
    and are taken as an interface ([External]).  Exceptions are results
    ([Raise]); mutation of [self.messages] is explicit state, which survives
    an exception as it does in Python. *)

From Stdlib Require Import List String Ascii ZArith Lia Bool Floats.
From Stdlib Require Import Permutation Sorted.
Import ListNotations.

Local Open Scope string_scope.
Local Open Scope list_scope.

(* ===================================================================== *)
(** ** Python values *)
(* ===================================================================== *)

Module Py.

#[warnings="-register-all"]
Inductive PyVal : Type :=
| VNone
| VBool (b : bool)
| VInt (z : Z)
| VFloat (f : float)
| VStr (s : string)
| VList (l : list PyVal)
| VDict (d : list (string * PyVal)).

(** The exceptions the modelled code can raise or let through. *)
Inductive Exn : Type :=
| TypeError
| AttributeError
| IndexError
| KeyError
| ZeroDivisionError
| Exit (code : Z)              (* typer.Exit *)
| ExternalError (msg : string) (* raised by a collaborator *).

Inductive Res (A : Type) : Type :=
| Ok (a : A)
| Raise (e : Exn).
Arguments Ok {A} a.
Arguments Raise {A} e.

(** [bool(v)] *)
Definition truthy (v : PyVal) : bool :=
  match v with
  | VNone => false
  | VBool b => b
  | VInt z => negb (Z.eqb z 0)
  | VFloat f => negb (PrimFloat.eqb f 0%float)
  | VStr s => negb (String.eqb s "")
  | VList l => match l with [] => false | _ => true end
  | VDict d => match d with [] => false | _ => true end
  end.

(** [a or b] *)
Definition py_or (a b : PyVal) : PyVal := if truthy a then a else b.

(** [v == "literal"] for a string literal *)
Definition eq_str (v : PyVal) (s : string) : bool :=
  match v with
  | VStr t => String.eqb t s
  | _ => false
  end.

Fixpoint assoc_get (d : list (string * PyVal)) (k : string) : option PyVal :=
  match d with
  | [] => None
  | (k', v) :: d' => if String.eqb k' k then Some v else assoc_get d' k
  end.

(** [d.get(k, default)]; an object without [.get] raises [AttributeError]. *)
Definition get (v : PyVal) (k : string) (default : PyVal) : Res PyVal :=
  match v with
  | VDict d => Ok (match assoc_get d k with Some x => x | None => default end)
  | _ => Raise AttributeError
  end.

(** [d[k]] on a dictionary. *)
Definition getitem (v : PyVal) (k : string) : Res PyVal :=
  match v with
  | VDict d => match assoc_get d k with Some x => Ok x | None => Raise KeyError end
  | _ => Raise TypeError
  end.

(** [float(v)].  The program applies it only to fields that
    [explain_analyze] and [benchmark] have filled with floats; the other
    conversions of Python's [float] are not reached and are left out. *)
Definition to_float (v : PyVal) : Res float :=
  match v with
  | VFloat f => Ok f
  | _ => Raise TypeError
  end.

(** The argument of [range(n)]: an [int] (or a [bool], which is one). *)
Definition range_len (v : PyVal) : Res nat :=
  match v with
  | VInt z => Ok (Z.to_nat z)
  | VBool b => Ok (if b then 1 else 0)%nat
  | _ => Raise TypeError
  end.

End Py.
Export Py.

(* ===================================================================== *)
(** ** Python strings *)
(* ===================================================================== *)

Module Str.

(** [str.isspace] on one code point below 256. *)
Definition is_space (c : ascii) : bool :=
  let n := nat_of_ascii c in
  ((9 <=? n) && (n <=? 13) || (28 <=? n) && (n <=? 32)
   || (n =? 133) || (n =? 160))%nat.

(** [str.lower] on one code point below 256. *)
Definition lower_char (c : ascii) : ascii :=
  let n := nat_of_ascii c in
  if ((65 <=? n) && (n <=? 90))%nat then ascii_of_nat (n + 32)
  else if ((192 <=? n) && (n <=? 222) && negb (n =? 215))%nat
       then ascii_of_nat (n + 32)
       else c.

Fixpoint lower (s : string) : string :=
  match s with
  | EmptyString => EmptyString
  | String c s' => String (lower_char c) (lower s')
  end.

Fixpoint lstrip (s : string) : string :=
  match s with
  | EmptyString => EmptyString
  | String c s' => if is_space c then lstrip s' else s
  end.

(** [rstrip] keeps a character when it is not white space or when something
    that is not white space follows it. *)
Fixpoint rstrip (s : string) : string :=
  match s with
  | EmptyString => EmptyString
  | String c s' =>
      match rstrip s' with
      | EmptyString => if is_space c then EmptyString else String c EmptyString
      | r => String c r
      end
  end.

Definition strip (s : string) : string := rstrip (lstrip s).

(** [s.startswith(p)] *)
Fixpoint starts_with (p s : string) : bool :=
  match p, s with
  | EmptyString, _ => true
  | String a p', String b s' => Ascii.eqb a b && starts_with p' s'
  | String _ _, EmptyString => false
  end.

(** [needle in hay] *)
Fixpoint contains (needle hay : string) : bool :=
  starts_with needle hay
  || match hay with
     | EmptyString => false
     | String _ hay' => contains needle hay'
     end.

(** [sep.join(l)] *)
Fixpoint join (sep : string) (l : list string) : string :=
  match l with
  | [] => EmptyString
  | [s] => s
  | s :: l' => s ++ sep ++ join sep l'
  end.

Fixpoint drop (n : nat) (s : string) : string :=
  match n, s with
  | O, _ => s
  | S n', String _ s' => drop n' s'
  | S _, EmptyString => EmptyString
  end.

Fixpoint all_space (s : string) : bool :=
  match s with
  | EmptyString => true
  | String c s' => is_space c && all_space s'
  end.

End Str.

(* ===================================================================== *)
(** ** State and exceptions *)
(* ===================================================================== *)

(** A computation reads and writes a state and returns a value or raises.
    The state after a [Raise] is the state at the point of the raise. *)
Definition M (St A : Type) : Type := St -> Res A * St.

Definition ret {St A} (a : A) : M St A := fun s => (Ok a, s).

Definition bind {St A B} (m : M St A) (k : A -> M St B) : M St B :=
  fun s =>
    match m s with
    | (Ok a, s') => k a s'
    | (Raise e, s') => (Raise e, s')
    end.

Definition raise {St A} (e : Exn) : M St A := fun s => (Raise e, s).

(** A pure step that may raise. *)
Definition lift {St A} (r : Res A) : M St A := fun s => (r, s).

Declare Scope py_scope.
Delimit Scope py_scope with py.
Notation "x <- m ;; k" := (bind m (fun x => k))
  (at level 61, m at next level, right associativity) : py_scope.
Notation "m ;;; k" := (bind m (fun _ => k))
  (at level 61, right associativity) : py_scope.
Notation "' pat <- m ;; k" := (bind m (fun x => match x with pat => k end))
  (at level 61, pat pattern, m at next level, right associativity) : py_scope.

(** Sequencing of pure steps that may raise. *)
Definition res_bind {A B} (r : Res A) (k : A -> Res B) : Res B :=
  match r with
  | Ok a => k a
  | Raise e => Raise e
  end.
Notation "x <-? r ;; k" := (res_bind r (fun x => k))
  (at level 61, r at next level, right associativity) : py_scope.

Local Open Scope py_scope.

(** The line feed of ["\n".join(...)]. *)
Definition nl : string := String (ascii_of_nat 10) EmptyString.

(* ===================================================================== *)
(** ** Collaborators *)
(* ===================================================================== *)

(** A dictionary: keys in insertion order. *)
Definition Dict : Type := list (string * PyVal).

(** [d.get(k, default)] on a dictionary. *)
Definition dget (d : Dict) (k : string) (default : PyVal) : PyVal :=
  match assoc_get d k with
  | Some v => v
  | None => default
  end.

(** What the [try] body of [DuckDBTooling.explain_analyze] computes when the
    query runs: the client-side elapsed time in ms, the total time parsed
    from the plan text (or [None]) and the plan text. *)
Record EAPayload : Type := {
  ea_elapsed : float;
  ea_total_s : PyVal;
  ea_analyze : string
}.

(** The program's collaborators over a world [W] they may change.

    - [responses_create]: [OpenAIResponsesLLM.responses_create] on the
      transcript (the tool schema [TOOLS_SPEC] it is also given is a
      constant), reduced to the ["output"] list of the dumped response (a
      list of dictionaries); a transport or backend fault is a [Raise].
    - [list_tables], [table_exists], [describe_relation]: the catalog
      methods of [DuckDBTooling], called with their bound parameters; their
      bodies run catalog queries without a handler, so they may raise.
    - [con_explain], [con_explain_analyze]: the [try] bodies of
      [DuckDBTooling.explain] and [explain_analyze]; [inl msg] is an
      exception whose text is [msg].
    - [json_loads]: [None] when [json.loads] raises.
    - [repr]: [str()] of a value that is not a string. *)
Record External (W : Type) : Type := {
  responses_create : list PyVal -> W -> Res (list Dict) * W;
  list_tables : W -> Res PyVal * W;
  table_exists : PyVal -> W -> Res PyVal * W;
  describe_relation : PyVal -> PyVal -> W -> Res PyVal * W;
  con_explain : PyVal -> W -> (string + string) * W;
  con_explain_analyze : PyVal -> W -> (string + EAPayload) * W;
  json_loads : string -> option PyVal;
  json_dumps : PyVal -> string;
  repr : PyVal -> string
}.
Arguments responses_create {W} _ _ _.
Arguments list_tables {W} _ _.
Arguments table_exists {W} _ _ _.
Arguments describe_relation {W} _ _ _ _.
Arguments con_explain {W} _ _ _.
Arguments con_explain_analyze {W} _ _ _.
Arguments json_loads {W} _ _.
Arguments json_dumps {W} _ _.
Arguments repr {W} _ _.

(** The state of a run: the agent's transcript ([self.messages]), the world
    of the collaborators, and a record of every Model Gateway call made so
    far (the transcript sent and what came back), oldest first.  The record
    is only observed by the theorems. *)
Record State (W : Type) : Type := {
  messages : list PyVal;
  world : W;
  gateway_log : list (list PyVal * Res (list Dict))
}.
Arguments messages {W} _.
Arguments world {W} _.
Arguments gateway_log {W} _.
Arguments Build_State {W} _ _ _.

Section Program.

Context {W : Type} (ext : External W).

Local Abbreviation St := (State W).

(** [str(v)], as an f-string formats a value. *)
Definition py_str (v : PyVal) : string :=
  match v with
  | VStr s => s
  | _ => repr ext v
  end.

Definition set_world (st : St) (w : W) : St :=
  Build_State (messages st) w (gateway_log st).

(** Run a collaborator on the world. *)
Definition on_world {A} (f : W -> A * W) : St -> A * St :=
  fun st => (fst (f (world st)), set_world st (snd (f (world st)))).

(** [self.messages.append(m)] *)
Definition append_message (m : PyVal) : M St unit :=
  fun st => (Ok tt, Build_State (messages st ++ [m]) (world st) (gateway_log st)).

(** [self.messages += items] *)
Definition extend_messages (items : list PyVal) : M St unit :=
  fun st => (Ok tt, Build_State (messages st ++ items) (world st) (gateway_log st)).

(** [self.llm.responses_create(self.messages, tools=TOOLS_SPEC)] and
    [resp.get("output", [])]. *)
Definition llm_call : M St (list Dict) :=
  fun st =>
    let '(r, w) := responses_create ext (messages st) (world st) in
    (r, Build_State (messages st) w (gateway_log st ++ [(messages st, r)])).

(* ===================================================================== *)
(** ** duckdb_tools.py: explain, explain_analyze, benchmark *)
(* ===================================================================== *)

Definition explain (sql : PyVal) : M St PyVal :=
  fun st =>
    match on_world (con_explain ext sql) st with
    | (inr plan, st') =>
        (Ok (VDict [("ok", VBool true); ("plan", VStr plan)]), st')
    | (inl msg, st') =>
        (Ok (VDict [("ok", VBool false);
                    ("error", VStr ("EXPLAIN failed: " ++ msg))]), st')
    end.

(** [timeout_s] is accepted and not used by the body. *)
Definition explain_analyze (sql timeout_s : PyVal) : M St PyVal :=
  fun st =>
    match on_world (con_explain_analyze ext sql) st with
    | (inr p, st') =>
        (Ok (VDict [("ok", VBool true);
                    ("elapsed_ms_client", VFloat (ea_elapsed p));
                    ("total_time_s_explain", ea_total_s p);
                    ("analyze", VStr (ea_analyze p))]), st')
    | (inl msg, st') =>
        (Ok (VDict [("ok", VBool false);
                    ("error", VStr ("EXPLAIN ANALYZE failed: " ++ msg))]), st')
    end.

(** [sorted(times)]: a stable sort by [<].  The samples are differences of
    clock readings, so no NaN occurs among them, and on such lists every
    stable comparison sort returns the list CPython's returns. *)
Fixpoint insert_sorted (x : float) (l : list float) : list float :=
  match l with
  | [] => [x]
  | y :: l' => if PrimFloat.ltb x y then x :: l else y :: insert_sorted x l'
  end.

Definition sorted (l : list float) : list float :=
  fold_left (fun acc x => insert_sorted x acc) l [].

(** The warm-up loop of [benchmark]: [Some r] is the record the method
    returns from inside the loop. *)
Fixpoint warmup_loop (n : nat) (sql timeout_s : PyVal) : M St (option PyVal) :=
  match n with
  | O => ret None
  | S n' =>
      r <- explain_analyze sql timeout_s ;;
      ok <- lift (get r "ok" VNone) ;;
      if negb (truthy ok) then
        e <- lift (get r "error" VNone) ;;
        ret (Some (VDict [("ok", VBool false); ("error", e)]))
      else warmup_loop n' sql timeout_s
  end.

(** The locals the measured loop updates. *)
Record Measured : Type := {
  times : list float;
  last_analyze : PyVal;
  last_total_s : PyVal
}.

(** The measured loop: [inl r] is the record returned from inside it. *)
Fixpoint measured_loop (n : nat) (sql timeout_s : PyVal) (acc : Measured)
  : M St (PyVal + Measured) :=
  match n with
  | O => ret (inr acc)
  | S n' =>
      r <- explain_analyze sql timeout_s ;;
      ok <- lift (get r "ok" VNone) ;;
      if negb (truthy ok) then
        e <- lift (get r "error" VNone) ;;
        ret (inl (VDict [("ok", VBool false); ("error", e)]))
      else
        x <- lift (getitem r "elapsed_ms_client") ;;
        t <- lift (to_float x) ;;
        a <- lift (get r "analyze" VNone) ;;
        s <- lift (get r "total_time_s_explain" VNone) ;;
        measured_loop n' sql timeout_s
          {| times := times acc ++ [t]; last_analyze := a; last_total_s := s |}
  end.

(** [DuckDBTooling.benchmark(sql, runs, warmup, timeout_s)] *)
Definition benchmark (sql runs warmup timeout_s : PyVal) : M St PyVal :=
  nw <- lift (range_len warmup) ;;
  early <- warmup_loop nw sql timeout_s ;;
  match early with
  | Some r => ret r
  | None =>
      nr <- lift (range_len runs) ;;
      m <- measured_loop nr sql timeout_s
             {| times := []; last_analyze := VNone; last_total_s := VNone |} ;;
      match m with
      | inl r => ret r
      | inr acc =>
          let times_sorted := sorted (times acc) in
          match nth_error times_sorted (List.length times_sorted / 2) with
          | None => raise IndexError
          | Some median =>
              ret (VDict [("ok", VBool true);
                          ("runs", runs);
                          ("warmup", warmup);
                          ("elapsed_ms", VList (map VFloat (times acc)));
                          ("median_ms", VFloat median);
                          ("analyze_sample", last_analyze acc);
                          ("total_time_s_explain_sample", last_total_s acc)])
          end
      end
  end.

(* ===================================================================== *)
(** ** agent.py: dispatch by name *)
(* ===================================================================== *)

(** A call that unpacks [args] as keyword arguments (two stars before
    [args]), for a method with the given parameters (a name and, when the
    parameter has one, its default): [args] must be a mapping, each of its
    keys must name a parameter, and every parameter without a default must
    be given; otherwise the call raises [TypeError].  The result lists the
    bound values in the order of the parameters. *)
Definition keys_within (names : list string) (d : Dict) : bool :=
  forallb (fun kv => existsb (String.eqb (fst kv)) names) d.

Fixpoint bind_params (params : list (string * option PyVal)) (d : Dict)
  : Res (list PyVal) :=
  match params with
  | [] => Ok []
  | (p, default) :: ps =>
      match assoc_get d p, default with
      | Some v, _ | None, Some v => vs <-? bind_params ps d ;; Ok (v :: vs)
      | None, None => Raise TypeError
      end
  end.

Definition call_kwargs (params : list (string * option PyVal)) (args : PyVal)
  : Res (list PyVal) :=
  match args with
  | VDict d =>
      if keys_within (map fst params) d then bind_params params d
      else Raise TypeError
  | _ => Raise TypeError
  end.

(** [SQLAgent._dispatch(name, args)] *)
Definition _dispatch (name args : PyVal) : M St PyVal :=
  if eq_str name "list_tables" then
    on_world (list_tables ext)
  else if eq_str name "table_exists" then
    vs <- lift (call_kwargs [("name", None)] args) ;;
    match vs with
    | [n] => on_world (table_exists ext n)
    | _ => raise TypeError
    end
  else if eq_str name "describe_relation" then
    vs <- lift (call_kwargs [("name", None);
                             ("sample_cols", Some (VInt 200))] args) ;;
    match vs with
    | [n; c] => on_world (describe_relation ext n c)
    | _ => raise TypeError
    end
  else if eq_str name "explain" then
    vs <- lift (call_kwargs [("sql", None)] args) ;;
    match vs with
    | [q] => explain q
    | _ => raise TypeError
    end
  else if eq_str name "benchmark" then
    vs <- lift (call_kwargs [("sql", None);
                             ("runs", Some (VInt 3));
                             ("warmup", Some (VInt 1));
                             ("timeout_s", Some (VInt 60))] args) ;;
    match vs with
    | [q; r; w; t] => benchmark q r w t
    | _ => raise TypeError
    end
  else
    ret (VDict [("ok", VBool false);
                ("error", VStr ("Unknown tool: " ++ py_str name));
                ("name", name);
                ("args", args)]).

(* ===================================================================== *)
(** ** agent.py: the dialogue loop *)
(* ===================================================================== *)

Definition is_function_call (item : Dict) : bool :=
  eq_str (dget item "type" VNone) "function_call".

(** The text parts of a message item whose content is a list. *)
Fixpoint content_chunks (content : list PyVal) : Res (list PyVal) :=
  match content with
  | [] => Ok []
  | c :: rest =>
      t <-? get c "type" VNone ;;
      here <-? (if eq_str t "output_text" || eq_str t "text"
                then x <-? get c "text" (VStr "") ;; Ok [x]
                else Ok []) ;;
      more <-? content_chunks rest ;;
      Ok (here ++ more)
  end.

(** The first [for] of a step: the tool calls and the text chunks of the
    output items, each in the order received. *)
Fixpoint classify (items : list Dict) : Res (list Dict * list PyVal) :=
  match items with
  | [] => Ok ([], [])
  | item :: rest =>
      here <-? (if is_function_call item then Ok ([item], [])
                else if eq_str (dget item "type" VNone) "message" then
                  match dget item "content" (VList []) with
                  | VList l => chunks <-? content_chunks l ;; Ok ([], chunks)
                  | VStr s => Ok ([], [VStr s])
                  | _ => Ok ([], [])
                  end
                else Ok ([], [])) ;;
      more <-? classify rest ;;
      Ok (fst here ++ fst more, snd here ++ snd more)
  end.

(** [[t for t in final_text_chunks if t.strip()]]: a chunk that is not a
    string has no [strip]. *)
Fixpoint nonblank (chunks : list PyVal) : Res (list string) :=
  match chunks with
  | [] => Ok []
  | VStr s :: rest =>
      more <-? nonblank rest ;;
      Ok (if String.eqb (Str.strip s) "" then more else s :: more)
  | _ :: _ => Raise AttributeError
  end.

(** [call.get("call_id") or call.get("id")] *)
Definition call_identifier (call : Dict) : PyVal :=
  py_or (dget call "call_id" VNone) (dget call "id" VNone).

(** The lenient decoding of a call's arguments:
    [json.loads(args_str) if isinstance(args_str, str) else (args_str or {})],
    with [{}] when that raises. *)
Definition decode_arguments (args_str : PyVal) : PyVal :=
  match args_str with
  | VStr s =>
      match json_loads ext s with
      | Some v => v
      | None => VDict []
      end
  | v => py_or v (VDict [])
  end.

Definition function_call_output (call_id result : PyVal) : PyVal :=
  VDict [("type", VStr "function_call_output");
         ("call_id", call_id);
         ("output", VStr (json_dumps ext result))].

Definition tool_call_event (name args : PyVal) : PyVal :=
  VDict [("kind", VStr "tool_call"); ("name", name); ("args", args)].

Definition tool_result_event (name result : PyVal) : PyVal :=
  VDict [("kind", VStr "tool_result"); ("name", name); ("result", result)].

(** The body of [for call in tool_calls]; the value is the event log. *)
Definition handle_call (events : list PyVal) (call : Dict) : M St (list PyVal) :=
  let name := dget call "name" VNone in
  let args_str := dget call "arguments" (VStr "{}") in
  let call_id := call_identifier call in
  let args := decode_arguments args_str in
  result <- _dispatch name args ;;
  append_message (function_call_output call_id result) ;;;
  ret (events ++ [tool_call_event name args; tool_result_event name result]).

Fixpoint handle_calls (events : list PyVal) (calls : list Dict)
  : M St (list PyVal) :=
  match calls with
  | [] => ret events
  | call :: rest =>
      events' <- handle_call events call ;;
      handle_calls events' rest
  end.

Definition sentinel : string := "Stopped: reached max_tool_steps.".

Definition assistant_message (text : string) : PyVal :=
  VDict [("role", VStr "assistant"); ("content", VStr text)].

(** The [for _ in range(max_tool_steps)] of [run_tool_loop], by the number
    of steps left. *)
Fixpoint tool_loop (n : nat) (events : list PyVal)
  : M St (option string * list PyVal) :=
  match n with
  | O => ret (Some sentinel, events)
  | S n' =>
      output_items <- llm_call ;;
      extend_messages (map VDict output_items) ;;;
      ' (tool_calls, chunks) <- lift (classify output_items) ;;
      match tool_calls with
      | _ :: _ =>
          events' <- handle_calls events tool_calls ;;
          tool_loop n' events'
      | [] =>
          texts <-  lift (nonblank chunks) ;;
          let final_text := Str.strip (Str.join nl texts) in
          if String.eqb final_text "" then ret (None, events)
          else
            append_message (assistant_message final_text) ;;;
            ret (Some final_text, events)
      end
  end.

Record AgentConfig : Type := { max_tool_steps : Z }.

(** [SQLAgent.run_tool_loop()] *)
Definition run_tool_loop (cfg : AgentConfig)
  : M St (option string * list PyVal) :=
  tool_loop (Z.to_nat (max_tool_steps cfg)) [].

Definition user_message (text : string) : PyVal :=
  VDict [("role", VStr "user"); ("content", VStr text)].

(** [SQLAgent.optimize_once]; the value is [final_text] and [events] of the
    returned dictionary.  Its third entry, [table_refs], is the value of the
    pure [extract_table_refs(bad_sql)], which the caller does not read. *)
Definition optimize_once (cfg : AgentConfig) (bad_sql : string)
    (runs warmup timeout_s : Z) (allow_semantic_change : bool)
  : M St (option string * list PyVal) :=
  append_message
    (user_message
       ("Task: optimize the following SQL for DuckDB." ++ nl ++ nl
        ++ "Allow semantic changes: " ++ py_str (VBool allow_semantic_change)
        ++ nl
        ++ "Benchmark settings: runs=" ++ py_str (VInt runs)
        ++ ", warmup=" ++ py_str (VInt warmup)
        ++ ", timeout_s=" ++ py_str (VInt timeout_s) ++ nl ++ nl
        ++ "SQL:" ++ nl ++ "```sql" ++ nl ++ bad_sql ++ nl ++ "```")) ;;;
  append_message
    (user_message
       ("Before rewriting, verify referenced relations and gather schema using tools. "
        ++ "Then benchmark the baseline. After rewriting, benchmark again.")) ;;;
  run_tool_loop cfg.

End Program.

(* ===================================================================== *)
(** ** cli.py: extracting the candidate *)
(* ===================================================================== *)

(** [SQL_BLOCK_RE]: three backquotes, [sql] in any case, white space, a
    group that is as short as possible, three backquotes; the dot matches
    every character.  The matcher below is the backtracking search of that
    expression written out. *)

Definition fence : string := "```".

(** A literal of the pattern against the text, ignoring case. *)
Fixpoint starts_with_ci (p s : string) : bool :=
  match p, s with
  | EmptyString, _ => true
  | String a p', String b s' =>
      Ascii.eqb (Str.lower_char a) (Str.lower_char b) && starts_with_ci p' s'
  | String _ _, EmptyString => false
  end.

(** The lazy group followed by the closing fence: the text before the first
    closing fence. *)
Fixpoint lazy_group (s : string) : option string :=
  if Str.starts_with fence s then Some EmptyString
  else match s with
       | EmptyString => None
       | String c s' => option_map (String c) (lazy_group s')
       end.

(** The greedy white space before the group: take a white-space character
    when the rest then matches, and give it back when it does not. *)
Fixpoint space_then_group (s : string) : option string :=
  match s with
  | String c s' =>
      if Str.is_space c then
        match space_then_group s' with
        | Some g => Some g
        | None => lazy_group s
        end
      else lazy_group s
  | EmptyString => lazy_group s
  end.

(** A match that starts at the head of [s]; the value is group 1. *)
Definition match_here (s : string) : option string :=
  if starts_with_ci "```sql" s then space_then_group (Str.drop 6 s) else None.

(** [SQL_BLOCK_RE.search(text)]: the leftmost match. *)
Fixpoint SQL_BLOCK_RE_search (s : string) : option string :=
  match match_here s with
  | Some g => Some g
  | None =>
      match s with
      | EmptyString => None
      | String _ s' => SQL_BLOCK_RE_search s'
      end
  end.

(** [_extract_sql_from_model(text)] *)
Definition _extract_sql_from_model (text : string) : option string :=
  if String.eqb text "" then None
  else
    match SQL_BLOCK_RE_search text with
    | Some g => Some (Str.strip g)
    | None =>
        if Str.contains "select" (Str.lower text) then Some (Str.strip text)
        else None
    end.

(* ===================================================================== *)
(** ** cli.py: the optimization loop *)
(* ===================================================================== *)

(** The locals that persist across rounds ([base_ms] is the reference the
    next candidate is compared with). *)
Record Best : Type := {
  best_sql : string;
  base_ms : float;
  best_report : option PyVal
}.

(** How an iteration of the [for] ends: it falls through or [continue]s to
    the next iteration, or it [break]s. *)
Inductive Flow : Type := Continue | Break.

Definition report (cand_bench : PyVal) (final_text : string) (improve_pct : float)
  : PyVal :=
  VDict [("benchmark", cand_bench);
         ("model_text", VStr final_text);
         ("improve_pct", VFloat improve_pct)].

(** The improvement of a candidate over the reference, in percent. *)
Definition improvement (reference_ms cand_ms : float) : float :=
  ((reference_ms - cand_ms) / reference_ms * 100)%float.

(** The part of an iteration after the candidate's benchmark. *)
Definition judge (min_improve_pct : float) (b : Best)
    (cand_sql final_text : string) (cand_bench : PyVal) : Res (Best * Flow) :=
  ok <-? get cand_bench "ok" VNone ;;
  if negb (truthy ok) then Ok (b, Continue)
  else
    m <-? getitem cand_bench "median_ms" ;;
    cand_ms <-? to_float m ;;
    if PrimFloat.eqb (base_ms b) 0 then Raise ZeroDivisionError
    else
      let improve_pct := improvement (base_ms b) cand_ms in
      let b' :=
        if PrimFloat.ltb cand_ms (base_ms b) then
          {| best_sql := cand_sql;
             base_ms := cand_ms;
             best_report := Some (report cand_bench final_text improve_pct) |}
        else b in
      Ok (b', if PrimFloat.leb min_improve_pct improve_pct then Break
              else Continue).

Section Optimize.

Context {W : Type} (ext : External W).

Local Abbreviation St := (State W).

Variables (runs warmup timeout_s : Z) (min_improve_pct : float).

(** The agent that [optimize] builds. *)
Definition agent_cfg : AgentConfig := {| max_tool_steps := 35 |}.

(** [out.get("final_text") or ""] *)
Definition final_text_of (out : option string * list PyVal) : string :=
  match fst out with
  | Some t => t
  | None => EmptyString
  end.

(** One iteration of [for it in range(1, max_iters + 1)]. *)
Definition round (b : Best) : M St (Best * Flow) :=
  out <- optimize_once ext agent_cfg (best_sql b) runs warmup timeout_s false ;;
  let final_text := final_text_of out in
  match _extract_sql_from_model final_text with
  | None => ret (b, Break)
  | Some cand_sql =>
      if String.eqb cand_sql "" then ret (b, Break)
      else
        cand_bench <- benchmark ext (VStr cand_sql) (VInt runs) (VInt warmup)
                        (VInt timeout_s) ;;
        lift (judge min_improve_pct b cand_sql final_text cand_bench)
  end.

Fixpoint rounds (n : nat) (b : Best) : M St Best :=
  match n with
  | O => ret b
  | S n' =>
      ' (b', flow) <- round b ;;
      match flow with
      | Break => ret b'
      | Continue => rounds n' b'
      end
  end.

(** [optimize], from the baseline benchmark on, for the query [bad_sql]; the
    value is the locals at the end of the loop.  [raise typer.Exit(code=1)]
    is [Raise (Exit 1)]. *)
Definition optimize (bad_sql : string) (max_iters : Z) : M St Best :=
  base_bench <- benchmark ext (VStr bad_sql) (VInt runs) (VInt warmup)
                  (VInt timeout_s) ;;
  ok <- lift (get base_bench "ok" VNone) ;;
  if negb (truthy ok) then raise (Exit 1)
  else
    m <- lift (getitem base_bench "median_ms") ;;
    base <- lift (to_float m) ;;
    rounds (Z.to_nat max_iters)
      {| best_sql := bad_sql; base_ms := base; best_report := None |}.

End Optimize.

(* ===================================================================== *)
(** ** A scripted world *)
(* ===================================================================== *)

(** A world in which the gateway and the database answer from scripts, for
    running the program on concrete inputs. *)
Module Script.

Record World : Type := {
  llm_script : list (Res (list Dict));
  ea_script : list (string + EAPayload)
}.

Definition next_response (transcript : list PyVal) (w : World)
  : Res (list Dict) * World :=
  match llm_script w with
  | r :: rest => (r, {| llm_script := rest; ea_script := ea_script w |})
  | [] => (Raise (ExternalError "backend unreachable"), w)
  end.

Definition next_execution (sql : PyVal) (w : World)
  : (string + EAPayload) * World :=
  match ea_script w with
  | r :: rest => (r, {| llm_script := llm_script w; ea_script := rest |})
  | [] => (inl "connection closed", w)
  end.

(** Only the empty object is decoded; every other text is refused. *)
Definition loads (s : string) : option PyVal :=
  if String.eqb s "{}" then Some (VDict []) else None.

Definition ext : External World := {|
  responses_create := next_response;
  list_tables := fun w => (Ok (VDict [("ok", VBool true); ("tables", VList [])]), w);
  table_exists := fun n w =>
    (Ok (VDict [("ok", VBool true); ("name", n); ("exists", VBool false)]), w);
  describe_relation := fun n _ w =>
    (Ok (VDict [("ok", VBool false);
                ("error", VStr "Relation not found in catalog")]), w);
  con_explain := fun _ w => (inr "SEQ_SCAN", w);
  con_explain_analyze := next_execution;
  json_loads := loads;
  json_dumps := fun _ => "{}";
  repr := fun _ => "None"
|}.

Definition start (llm : list (Res (list Dict))) (ea : list (string + EAPayload))
  : State World :=
  {| messages := []; world := {| llm_script := llm; ea_script := ea |};
     gateway_log := [] |}.

Definition sample (ms : float) : EAPayload :=
  {| ea_elapsed := ms; ea_total_s := VNone; ea_analyze := "plan" |}.

Definition timed (ms : float) : string + EAPayload := inr (sample ms).

(** A request for a tool that does not exist, with arguments that do not
    decode. *)
Definition unknown_call : Dict :=
  [("type", VStr "function_call");
   ("name", VStr "frobnicate");
   ("arguments", VStr "{");
   ("call_id", VStr "call_7")].

(** A request whose [call_id] is present and empty, with an [id]. *)
Definition empty_id_call : Dict :=
  [("type", VStr "function_call");
   ("name", VStr "frobnicate");
   ("arguments", VStr "{}");
   ("call_id", VStr "");
   ("id", VStr "fc_1")].

(** A message item with one text part. *)
Definition reply (text : string) : Dict :=
  [("type", VStr "message");
   ("content", VList [VDict [("type", VStr "output_text");
                             ("text", VStr text)]])].

Definition baseline_sql : string :=
  "SELECT * FROM orders o JOIN customers c ON o.cid=c.id".

Definition rewritten_sql : string :=
  "SELECT o.id FROM orders o JOIN customers c ON o.cid=c.id".

Definition rewrite_text : string :=
  "Select only the needed columns." ++ nl
  ++ "```sql" ++ nl ++ rewritten_sql ++ nl ++ "```".

(** The scenario of the specification: the baseline measures 120 ms, the
    model answers with a fenced rewrite, and the rewrite measures 90 ms
    (one run, no warm-up). *)
Definition scenario : State World :=
  start [Ok [reply rewrite_text]] [timed 120; timed 90].

(** The same dialogue, with a baseline that does not run. *)
Definition broken_baseline : State World :=
  start [Ok [reply rewrite_text]] [inl "Parser Error"].

(** The same dialogue, with a candidate that does not run. *)
Definition broken_candidate : State World :=
  start [Ok [reply rewrite_text]] [timed 120; inl "Binder Error"].


(** The locals after a baseline of [ms]. *)
Definition baseline (ms : float) : Best :=
  {| best_sql := baseline_sql; base_ms := ms; best_report := None |}.

End Script.

(* ===================================================================== *)
(** ** Vocabulary of the statements *)
(* ===================================================================== *)

(** The five names [_dispatch] knows. *)
Definition registered (name : PyVal) : bool :=
  existsb (eq_str name)
    ["list_tables"; "table_exists"; "describe_relation"; "explain"; "benchmark"].

(** [a] is not greater than [b]: the order a list sorted by [<] is in. *)
Definition not_above (a b : float) : Prop := PrimFloat.ltb b a = false.

(** What the locals of the measured loop become after one more successful
    execution. *)
Definition measure (acc : Measured) (p : EAPayload) : Measured :=
  {| times := times acc ++ [ea_elapsed p];
     last_analyze := VStr (ea_analyze p);
     last_total_s := ea_total_s p |}.

Section Vocabulary.

Context {W : Type} (ext : External W).

(** Two states with the same transcript and the same gateway record: only
    the world may differ. *)
Definition same_agent (st st' : State W) : Prop :=
  messages st' = messages st /\ gateway_log st' = gateway_log st.

(** A computation that touches neither the transcript nor the gateway. *)
Definition frames {A} (m : M (State W) A) : Prop :=
  forall st, same_agent st (snd (m st)).

(** The outcomes of [n] successive executions of the measurement primitive
    on [sql], and the world they leave. *)
Fixpoint executions (n : nat) (sql : PyVal) (w : W)
  : list (string + EAPayload) * W :=
  match n with
  | O => ([], w)
  | S n' =>
      let '(r, w1) := con_explain_analyze ext sql w in
      let '(rs, w2) := executions n' sql w1 in
      (r :: rs, w2)
  end.

(** The identifier a request is answered under: its [call_id] when it has
    one that Python reads as true (so neither [None] nor empty), and
    otherwise its [id], or [None] when it has no [id] either. *)
Definition request_id (call : Dict) : PyVal :=
  let id := match assoc_get call "id" with
            | Some i => i
            | None => VNone
            end in
  match assoc_get call "call_id" with
  | Some c => if truthy c then c else id
  | None => id
  end.

(** [out] is a tool-result record for the identifier [i]: a dictionary of
    type [function_call_output] whose [call_id] is [i] and whose [output]
    is a serialized result. *)
Definition tool_result_for (i : PyVal) (out : PyVal) : Prop :=
  exists result,
    out = VDict [("type", VStr "function_call_output");
                 ("call_id", i);
                 ("output", VStr (json_dumps ext result))].

(** [outs] answers [calls]: one tool-result record per call, in the order of
    the calls, each carrying the identifier of its call. *)
Definition answers (calls : list Dict) (outs : list PyVal) : Prop :=
  Forall2 (fun call out => tool_result_for (request_id call) out) calls outs.

(** What a terminal turn returns as its text: the text chunks of the items
    that are not blank, joined by new lines and stripped; [None] when that
    is empty. *)
Definition spoken (items : list Dict) (text : option string) : Prop :=
  exists chunks texts,
    classify items = Ok ([], chunks)
    /\ nonblank chunks = Ok texts
    /\ text = (if String.eqb (Str.strip (Str.join nl texts)) ""
               then None
               else Some (Str.strip (Str.join nl texts))).

(** The transcript [t2] is [t1], then the items of a response, then the
    answers to the tool calls among these items, and nothing else. *)
Definition paired (t1 : list PyVal) (items : list Dict) (t2 : list PyVal)
  : Prop :=
  exists outs,
    t2 = t1 ++ map VDict items ++ outs
    /\ answers (filter is_function_call items) outs.

(** Every gateway call of a record but the last returned items, and the
    transcript sent with the next call is [paired] with them. *)
Fixpoint chain (log : list (list PyVal * Res (list Dict))) : Prop :=
  match log with
  | (t1, r1) :: (((t2, _) :: _) as rest) =>
      (exists items, r1 = Ok items /\ paired t1 items t2) /\ chain rest
  | _ => True
  end.

(** The transcript a record starts from, when it has an entry. *)
Definition starts_from (t : list PyVal)
    (log : list (list PyVal * Res (list Dict))) : Prop :=
  match log with
  | [] => True
  | (t1, _) :: _ => t1 = t
  end.

(** The number of tool calls requested in the responses of a record. *)
Fixpoint calls_in (log : list (list PyVal * Res (list Dict))) : nat :=
  match log with
  | [] => O
  | (_, Ok items) :: rest =>
      (List.length (filter is_function_call items) + calls_in rest)%nat
  | (_, Raise _) :: rest => calls_in rest
  end.

(** A gateway call that came back with at least one tool call. *)
Definition asks_for_tools (entry : list PyVal * Res (list Dict)) : Prop :=
  exists items, snd entry = Ok items /\ existsb is_function_call items = true.

Fixpoint last_entry {A} (l : list A) : option A :=
  match l with
  | [] => None
  | [a] => Some a
  | _ :: l' => last_entry l'
  end.

(** The last gateway call of a record returned items, and the transcript
    [final] is [paired] with them, but for the assistant message that a
    terminal turn appends. *)
Definition settled (log : list (list PyVal * Res (list Dict)))
    (final : list PyVal) : Prop :=
  match last_entry log with
  | None => True
  | Some (t, r) =>
      exists items t',
        r = Ok items /\ paired t items t'
        /\ (final = t' \/ exists text, final = t' ++ [assistant_message text])
  end.

(** What an execution of the loop with [n] steps from [st] and the event
    log [ev] leaves, when it ends in [st'] with [r]: it made at most [n]
    gateway calls, the first with the transcript of [st]; each call but the
    last is followed, before the next one, by the items it returned and the
    answers to their tool calls; and when the loop returns, the same holds of
    the last call, the event log has grown by two events per tool call, and
    the text is the sentinel if every call came back with tool calls. *)
Definition loop_post (n : nat) (ev : list PyVal) (st : State W)
    (r : Res (option string * list PyVal)) (st' : State W) : Prop :=
  exists new,
    gateway_log st' = gateway_log st ++ new
    /\ (List.length new <= n)%nat
    /\ starts_from (messages st) new
    /\ chain new
    /\ forall text ev', r = Ok (text, ev') ->
         List.length ev' = (List.length ev + 2 * calls_in new)%nat
         /\ (new = [] -> messages st' = messages st)
         /\ settled new (messages st')
         /\ (Forall asks_for_tools new ->
             text = Some sentinel /\ List.length new = n).

End Vocabulary.

(** A request for [table_exists] with the given serialized arguments. *)
Definition table_exists_call (arguments : string) : Dict :=
  [("type", VStr "function_call");
   ("name", VStr "table_exists");
   ("arguments", VStr arguments);
   ("call_id", VStr "call_1")].

(** The candidate a round adopts. *)
Definition adopted (b : Best) (cand_sql final_text : string)
    (cand_bench : PyVal) (cand_ms : float) : Best :=
  {| best_sql := cand_sql;
     base_ms := cand_ms;
     best_report :=
       Some (report cand_bench final_text
               ((base_ms b - cand_ms) / base_ms b * 100)%float) |}.

(** [body] is what the first fenced SQL block of [text] holds: [text] is a
    prefix in which no opening fence starts, an opening fence (three
    backquotes and [sql] in any case), white space, [body], a closing
    fence, and a rest; [body] does not begin with white space, and no
    closing fence starts inside it. *)
Definition first_fenced_block (text body : string) : Prop :=
  exists pre opener ws rest,
    text = (pre ++ opener ++ ws ++ body ++ fence ++ rest)%string
    /\ (forall i, (i < String.length pre)%nat ->
                  starts_with_ci "```sql" (Str.drop i text) = false)
    /\ String.length opener = 6%nat
    /\ starts_with_ci "```sql" opener = true
    /\ Str.all_space ws = true
    /\ (forall c body', body = String c body' -> Str.is_space c = false)
    /\ (forall i, (i < String.length body)%nat ->
                  Str.starts_with fence (Str.drop i (body ++ fence ++ rest)%string)
                  = false).

(* ===================================================================== *)
(** ** util.py: clamp *)
(* ===================================================================== *)

(** [clamp(n, lo, hi)]: [max(lo, min(hi, n))] on integers. *)
Definition clamp (n lo hi : Z) : Z := Z.max lo (Z.min hi n).

(* ===================================================================== *)
(** ** More vocabulary *)
(* ===================================================================== *)

(** The two events the loop records for one tool call. *)
Definition event_pair (c : PyVal * PyVal * PyVal) : list PyVal :=
  let '(name, args, result) := c in
  [tool_call_event name args; tool_result_event name result].

(** The locals of the optimization loop agree with each other: there is no
    report yet, or the report is that of a benchmark whose median is the
    reference and the best SQL is a candidate that is not empty. *)
Definition coherent (b : Best) : Prop :=
  best_report b = None
  \/ exists cand_bench final_text improve_pct,
       best_report b = Some (report cand_bench final_text improve_pct)
       /\ getitem cand_bench "median_ms" = Ok (VFloat (base_ms b))
       /\ best_sql b <> EmptyString.

(* ===================================================================== *)
(** ** duckdb_tools.py: the tool schema *)
(* ===================================================================== *)

(** [TOOLS_SPEC], as it is written. *)
Definition TOOLS_SPEC : list PyVal :=
  [VDict [("type", VStr "function");
          ("name", VStr "list_tables");
          ("description",
           VStr "List tables/views in DuckDB (excluding system schemas).");
          ("parameters",
           VDict [("type", VStr "object");
                  ("properties", VDict []);
                  ("required", VList [])])];
   VDict [("type", VStr "function");
          ("name", VStr "table_exists");
          ("description",
           VStr "Check whether a relation exists in DuckDB catalog.");
          ("parameters",
           VDict [("type", VStr "object");
                  ("properties",
                   VDict [("name", VDict [("type", VStr "string")])]);
                  ("required", VList [VStr "name"])])];
   VDict [("type", VStr "function");
          ("name", VStr "describe_relation");
          ("description",
           VStr "Get column names and types for a table/view from information_schema.");
          ("parameters",
           VDict [("type", VStr "object");
                  ("properties",
                   VDict [("name", VDict [("type", VStr "string")]);
                          ("sample_cols",
                           VDict [("type", VStr "integer");
                                  ("default", VInt 200)])]);
                  ("required", VList [VStr "name"])])];
   VDict [("type", VStr "function");
          ("name", VStr "explain");
          ("description",
           VStr "Run EXPLAIN <sql> and return the plan text.");
          ("parameters",
           VDict [("type", VStr "object");
                  ("properties",
                   VDict [("sql", VDict [("type", VStr "string")])]);
                  ("required", VList [VStr "sql"])])];
   VDict [("type", VStr "function");
          ("name", VStr "benchmark");
          ("description",
           VStr "Benchmark a SQL query using EXPLAIN ANALYZE. IMPORTANT: `sql` must be raw SQL only (no markdown, no backticks, no headings).");
          ("parameters",
           VDict [("type", VStr "object");
                  ("properties",
                   VDict [("sql", VDict [("type", VStr "string")]);
                          ("runs",
                           VDict [("type", VStr "integer");
                                  ("default", VInt 3)]);
                          ("warmup",
                           VDict [("type", VStr "integer");
                                  ("default", VInt 1)]);
                          ("timeout_s",
                           VDict [("type", VStr "integer");
                                  ("default", VInt 60)])]);
                  ("required", VList [VStr "sql"])])]].

(** The entry [k] of a value that is a dictionary ([None] otherwise). *)
Definition field (v : PyVal) (k : string) : PyVal :=
  match v with
  | VDict d => dget d k VNone
  | _ => VNone
  end.

Definition has_key (d : Dict) (k : string) : bool :=
  match assoc_get d k with
  | Some _ => true
  | None => false
  end.

(** The declared properties, the required names and the declared default
    of a property in one entry of the schema. *)
Definition spec_properties (spec : PyVal) : Dict :=
  match field (field spec "parameters") "properties" with
  | VDict d => d
  | _ => []
  end.

Definition spec_required (spec : PyVal) : list PyVal :=
  match field (field spec "parameters") "required" with
  | VList l => l
  | _ => []
  end.

Definition schema_default (spec : PyVal) (k : string) : PyVal :=
  field (field (VDict (spec_properties spec)) k) "default".

(** Arguments that conform to an entry of the schema: every key is a
    declared property and every required name is a key. *)
Definition conforms (spec : PyVal) (d : Dict) : bool :=
  forallb (fun kv => has_key (spec_properties spec) (fst kv)) d
  && forallb (fun r => match r with
                       | VStr k => has_key d k
                       | _ => false
                       end) (spec_required spec).

Section Schema.

Context {W : Type} (ext : External W).

(** The call of the tooling an entry of the schema stands for, with each
    argument taken from [d] or, when [d] lacks it, from the default the
    schema declares. *)
Definition declared_call (spec : PyVal) (d : Dict) : M (State W) PyVal :=
  let arg k := dget d k (schema_default spec k) in
  let n := field spec "name" in
  if eq_str n "list_tables" then on_world (list_tables ext)
  else if eq_str n "table_exists" then
    on_world (table_exists ext (arg "name"))
  else if eq_str n "describe_relation" then
    on_world (describe_relation ext (arg "name") (arg "sample_cols"))
  else if eq_str n "explain" then explain ext (arg "sql")
  else
    benchmark ext (arg "sql") (arg "runs") (arg "warmup") (arg "timeout_s").

End Schema.

(* ===================================================================== *)
(** ** util.py: extract_table_refs *)
(* ===================================================================== *)

(** [TABLE_REGEX]: [from] or [join] in any case, white space, and a name
    [table] or [schema.table], where a name is a letter or an underscore
    followed by word characters.

    The texts of this development are sequences of code points below 256,
    and the definitions below are the pattern on such texts: there its
    classes and its matching without regard to case are those written
    here.  On a text with other code points the pattern accepts more (the
    letters that have an ASCII letter as their other case: the dotted
    capital and the dotless small i, the long s, the Kelvin sign), which
    these definitions do not describe. *)

(** The class of a letter or an underscore, on a code point below 256. *)
Definition is_ident_start (c : ascii) : bool :=
  let n := nat_of_ascii c in
  ((65 <=? n) && (n <=? 90) || (97 <=? n) && (n <=? 122) || (n =? 95))%nat.

(** The class of a word character. *)
Definition is_word (c : ascii) : bool :=
  let n := nat_of_ascii c in
  ((48 <=? n) && (n <=? 57) || is_ident_start c
   || (n =? 170) || (n =? 178) || (n =? 179) || (n =? 181) || (n =? 185)
   || (n =? 186) || (188 <=? n) && (n <=? 190)
   || (192 <=? n) && (n <=? 214) || (216 <=? n) && (n <=? 246)
   || (248 <=? n) && (n <=? 255))%nat.

(** The longest run of word characters at the head of a text, and what
    follows it. *)
Fixpoint word_run (s : string) : string * string :=
  match s with
  | String c s' =>
      if is_word c then
        let (r, rest) := word_run s' in (String c r, rest)
      else (EmptyString, s)
  | EmptyString => (EmptyString, EmptyString)
  end.

(** A name at the head of a text, and what follows it.  The run of word
    characters is the longest one: where the pattern goes on after a name
    it goes on with a dot, which no shorter run is followed by. *)
Definition ident (s : string) : option (string * string) :=
  match s with
  | String c s' =>
      if is_ident_start c then
        let (r, rest) := word_run s' in Some (String c r, rest)
      else None
  | EmptyString => None
  end.

(** The optional schema and the table: [schema.table] when a name, a dot
    and a name follow each other, and the first name alone otherwise.  The
    value is the reference and the text after the match. *)
Definition reference (s : string) : option (string * string) :=
  match ident s with
  | None => None
  | Some (r1, rest) =>
      match rest with
      | String "."%char rest' =>
          match ident rest' with
          | Some (r2, rest2) => Some ((r1 ++ "." ++ r2)%string, rest2)
          | None => Some (r1, rest)
          end
      | _ => Some (r1, rest)
      end
  end.

(** One white-space character or more, as many as possible, and then the
    reference. *)
Fixpoint after_spaces (s : string) : option (string * string) :=
  match s with
  | String c s' =>
      if Str.is_space c then
        match after_spaces s' with
        | Some r => Some r
        | None => reference s'
        end
      else None
  | EmptyString => None
  end.

(** A match of [TABLE_REGEX] at the head of a text of code points below
    256, where the letters of the keyword match in either case only. *)
Definition TABLE_REGEX_match (s : string) : option (string * string) :=
  if starts_with_ci "from" s || starts_with_ci "join" s
  then after_spaces (Str.drop 4 s)
  else None.

(** [TABLE_REGEX.finditer(sql)], as the references of its matches: the
    matches from left to right, each search starting where the match
    before ended ([skip] counts the characters of a match still to pass). *)
Fixpoint finditer (skip : nat) (s : string) : list string :=
  match s with
  | EmptyString => []
  | String _ s' =>
      match skip with
      | S k => finditer k s'
      | O =>
          match TABLE_REGEX_match s with
          | Some (ref, rest) =>
              ref :: finditer (String.length s' - String.length rest) s'
          | None => finditer 0 s'
          end
      end
  end.

Definition TABLE_REGEX_finditer (sql : string) : list string := finditer 0 sql.

(** The second loop of [extract_table_refs]: the references not seen
    before, in their order. *)
Fixpoint dedup (refs seen : list string) : list string :=
  match refs with
  | [] => []
  | r :: rest =>
      if existsb (String.eqb r) seen then dedup rest seen
      else r :: dedup rest (r :: seen)
  end.

(** [extract_table_refs(sql)] *)
Definition extract_table_refs (sql : string) : list string :=
  dedup (TABLE_REGEX_finditer sql) [].

(** A reference begins with a letter or an underscore. *)
Definition well_begun (r : string) : Prop :=
  exists c r', r = String c r' /\ is_ident_start c = true.

(* ===================================================================== *)
(** ** duckdb_tools.py: the catalog methods *)
(* ===================================================================== *)

(** The catalog queries of [DuckDBTooling], each with the rows it fetches
    (or the count it fetches, for the two [COUNT] queries); a [Raise] is an
    exception of the connection.

    - [select_tables]: the query of [list_tables].
    - [count_in_schema schema table], [count_named name]: the queries of
      [table_exists] for a qualified and for an unqualified name.
    - [columns_in_schema schema table], [columns_named name]: the queries
      of [describe_relation]; the rows are (column, type) and
      (schema, column, type). *)
Record Catalog (W : Type) : Type := {
  select_tables : W -> Res (list (PyVal * PyVal * PyVal)) * W;
  count_in_schema : string -> string -> W -> Res Z * W;
  count_named : PyVal -> W -> Res Z * W;
  columns_in_schema : string -> string -> W -> Res (list (string * string)) * W;
  columns_named : PyVal -> W -> Res (list (string * string * string)) * W
}.
Arguments select_tables {W} _ _.
Arguments count_in_schema {W} _ _ _ _.
Arguments count_named {W} _ _ _.
Arguments columns_in_schema {W} _ _ _ _.
Arguments columns_named {W} _ _ _.

(** ["." in name]: a substring of a string, an element of a list, a key of
    a dictionary; other values are not iterable. *)
Definition dot_in (name : PyVal) : Res bool :=
  match name with
  | VStr s => Ok (Str.contains "." s)
  | VList l => Ok (existsb (fun x => eq_str x ".") l)
  | VDict d => Ok (has_key d ".")
  | _ => Raise TypeError
  end.

(** [name.split(".", 1)] for a string that holds a dot: the text before
    the first dot and the text after it. *)
Fixpoint split_first (s : string) : string * string :=
  match s with
  | EmptyString => (EmptyString, EmptyString)
  | String c s' =>
      if Ascii.eqb c "."%char then (EmptyString, s')
      else let (a, b) := split_first s' in (String c a, b)
  end.

(** [rows[:k]] *)
Definition slice_to {A} (k : PyVal) (rows : list A) : Res (list A) :=
  match k with
  | VNone => Ok rows
  | VInt z =>
      Ok (if (0 <=? z)%Z then firstn (Z.to_nat z) rows
          else firstn (List.length rows - Z.to_nat (- z)) rows)
  | VBool b => Ok (firstn (if b then 1 else 0) rows)
  | _ => Raise TypeError
  end.

Definition column_entry (c t : string) : PyVal :=
  VDict [("name", VStr c); ("type", VStr t)].

(** [grouped.setdefault(schema, []).append(x)] *)
Fixpoint setdefault_append (g : list (string * list PyVal)) (k : string)
    (x : PyVal) : list (string * list PyVal) :=
  match g with
  | [] => [(k, [x])]
  | (k', l) :: g' =>
      if String.eqb k' k then (k', l ++ [x]) :: g'
      else (k', l) :: setdefault_append g' k x
  end.

(** The loop that groups the rows by schema. *)
Definition group_rows (rows : list (string * string * string))
  : list (string * list PyVal) :=
  fold_left (fun g '(schema, c, t) => setdefault_append g schema (column_entry c t))
    rows [].

Section CatalogMethods.

Context {W : Type} (ext : External W) (cat : Catalog W).

(** [DuckDBTooling.list_tables()] *)
Definition list_tables_body (w : W) : Res PyVal * W :=
  match select_tables cat w with
  | (Ok rows, w') =>
      (Ok (VDict [("ok", VBool true);
                  ("tables",
                   VList (map (fun '(s, n, t) =>
                                 VDict [("schema", s); ("name", n); ("type", t)])
                              rows))]), w')
  | (Raise e, w') => (Raise e, w')
  end.

Definition exists_record (name : PyVal) (n : Z) : PyVal :=
  VDict [("ok", VBool true); ("name", name); ("exists", VBool (0 <? n)%Z)].

(** [DuckDBTooling.table_exists(name)] *)
Definition table_exists_body (name : PyVal) (w : W) : Res PyVal * W :=
  match dot_in name with
  | Raise e => (Raise e, w)
  | Ok true =>
      match name with
      | VStr s =>
          let (schema, table) := split_first s in
          match count_in_schema cat schema table w with
          | (Ok n, w') => (Ok (exists_record name n), w')
          | (Raise e, w') => (Raise e, w')
          end
      | _ => (Raise AttributeError, w)
      end
  | Ok false =>
      match count_named cat name w with
      | (Ok n, w') => (Ok (exists_record name n), w')
      | (Raise e, w') => (Raise e, w')
      end
  end.

Definition not_found (name : PyVal) : PyVal :=
  VDict [("ok", VBool false);
         ("error",
          VStr ("Relation not found in catalog: " ++ py_str ext name))].

(** [DuckDBTooling.describe_relation(name, sample_cols)] *)
Definition describe_relation_body (name sample_cols : PyVal) (w : W)
  : Res PyVal * W :=
  match dot_in name with
  | Raise e => (Raise e, w)
  | Ok true =>
      match name with
      | VStr s =>
          let (schema, table) := split_first s in
          match columns_in_schema cat schema table w with
          | (Raise e, w') => (Raise e, w')
          | (Ok rows, w') =>
              match rows with
              | [] => (Ok (not_found name), w')
              | _ :: _ =>
                  match slice_to sample_cols rows with
                  | Raise e => (Raise e, w')
                  | Ok shown =>
                      (Ok (VDict
                             [("ok", VBool true);
                              ("relation", name);
                              ("columns",
                               VList (map (fun '(c, t) => column_entry c t)
                                          shown));
                              ("num_columns",
                               VInt (Z.of_nat (List.length rows)))]), w')
                  end
              end
          end
      | _ => (Raise AttributeError, w)
      end
  | Ok false =>
      match columns_named cat name w with
      | (Raise e, w') => (Raise e, w')
      | (Ok rows, w') =>
          match rows with
          | [] => (Ok (not_found name), w')
          | _ :: _ =>
              match slice_to sample_cols rows with
              | Raise e => (Raise e, w')
              | Ok shown =>
                  (Ok (VDict
                         [("ok", VBool true);
                          ("relation", name);
                          ("schemas",
                           VDict (map (fun '(k, l) => (k, VList l))
                                      (group_rows shown)));
                          ("num_columns",
                           VInt (Z.of_nat (List.length rows)))]), w')
              end
          end
      end
  end.

(** The collaborators whose catalog methods are the three above. *)
Definition tooling : External W :=
  {| responses_create := responses_create ext;
     list_tables := list_tables_body;
     table_exists := table_exists_body;
     describe_relation := describe_relation_body;
     con_explain := con_explain ext;
     con_explain_analyze := con_explain_analyze ext;
     json_loads := json_loads ext;
     json_dumps := json_dumps ext;
     repr := repr ext |}.

End CatalogMethods.

(** A catalog with one schema [main] that holds the relation [orders]
    with three columns; every other lookup finds nothing. *)
Module Shelf.

Definition orders_columns : list (string * string) :=
  [("id", "INTEGER"); ("cid", "INTEGER"); ("total", "DOUBLE")].

Definition is_orders (schema table : string) : bool :=
  String.eqb schema "main" && String.eqb table "orders".

Definition catalog : Catalog Script.World := {|
  select_tables := fun w =>
    (Ok [(VStr "main", VStr "orders", VStr "BASE TABLE")], w);
  count_in_schema := fun schema table w =>
    (Ok (if is_orders schema table then 1%Z else 0%Z), w);
  count_named := fun name w =>
    (Ok (if eq_str name "orders" then 1%Z else 0%Z), w);
  columns_in_schema := fun schema table w =>
    (Ok (if is_orders schema table then orders_columns else []), w);
  columns_named := fun name w =>
    (Ok (if eq_str name "orders"
         then map (fun '(c, t) => ("main", c, t)) orders_columns
         else []), w)
|}.

Definition ext : External Script.World := tooling Script.ext catalog.

(** The serialized arguments that name [orders], and a decoder that reads
    them. *)
Definition quote : string := String (Ascii.ascii_of_nat 34) EmptyString.

Definition orders_arguments : string :=
  "{" ++ quote ++ "name" ++ quote ++ ": " ++ quote ++ "orders" ++ quote ++ "}".

Definition loads (s : string) : option PyVal :=
  if String.eqb s orders_arguments
  then Some (VDict [("name", VStr "orders")])
  else Script.loads s.

Definition reader : External Script.World := {|
  responses_create := responses_create Script.ext;
  list_tables := list_tables Script.ext;
  table_exists := table_exists Script.ext;
  describe_relation := describe_relation Script.ext;
  con_explain := con_explain Script.ext;
  con_explain_analyze := con_explain_analyze Script.ext;
  json_loads := loads;
  json_dumps := json_dumps Script.ext;
  repr := repr Script.ext
|}.

(** A catalog behind a closed connection: every query raises. *)
Definition closed : Catalog Script.World := {|
  select_tables := fun w => (Raise (ExternalError "connection closed"), w);
  count_in_schema := fun _ _ w => (Raise (ExternalError "connection closed"), w);
  count_named := fun _ w => (Raise (ExternalError "connection closed"), w);
  columns_in_schema := fun _ _ w =>
    (Raise (ExternalError "connection closed"), w);
  columns_named := fun _ w => (Raise (ExternalError "connection closed"), w)
|}.

End Shelf.

(** The schema of a fetched row, its entry in the answer, and the entries
    of the rows of one schema, in the order of the rows. *)
Definition schema_of (r : string * string * string) : string := fst (fst r).

Definition entry_of (r : string * string * string) : PyVal :=
  column_entry (snd (fst r)) (snd r).

Definition columns_of (rows : list (string * string * string)) (k : string)
  : list PyVal :=
  map entry_of (filter (fun r => String.eqb (schema_of r) k) rows).

(* ===================================================================== *)
(** ** Sequencing *)
(* ===================================================================== *)

Lemma bind_inv {St A B} (m : M St A) (k : A -> M St B) st r st' :
  bind m k st = (r, st') ->
  (exists a st1, m st = (Ok a, st1) /\ k a st1 = (r, st'))
  \/ (exists e, m st = (Raise e, st') /\ r = Raise e).
Proof.
  unfold bind. destruct (m st) as [[a | e] st1]; intros H.
  - left. exists a, st1. split; [reflexivity | exact H].
  - right. inversion H; subst. exists e. split; reflexivity.
Qed.

Lemma bind_ok {St A B} (m : M St A) (k : A -> M St B) st a st1 :
  m st = (Ok a, st1) -> bind m k st = k a st1.
Proof. intros H. unfold bind. rewrite H. reflexivity. Qed.

Lemma bind_raise {St A B} (m : M St A) (k : A -> M St B) st e st1 :
  m st = (Raise e, st1) -> bind m k st = (Raise e, st1).
Proof. intros H. unfold bind. rewrite H. reflexivity. Qed.

Lemma bind_lift {St A B} (r : Res A) (k : A -> M St B) st :
  bind (lift r) k st
  = match r with
    | Ok a => k a st
    | Raise e => (Raise e, st)
    end.
Proof. unfold bind, lift. destruct r; reflexivity. Qed.

Section Frames.

Context {W : Type} (ext : External W).

Lemma same_agent_refl (st : State W) : same_agent st st.
Proof. split; reflexivity. Qed.

Lemma same_agent_trans (a b c : State W) :
  same_agent a b -> same_agent b c -> same_agent a c.
Proof. intros [H1 H2] [H3 H4]. split; congruence. Qed.

Lemma frames_ret {A} (a : A) : frames (ret (St := State W) a).
Proof. intros st. apply same_agent_refl. Qed.

Lemma frames_raise {A} e : frames (raise (St := State W) (A := A) e).
Proof. intros st. apply same_agent_refl. Qed.

Lemma frames_lift {A} (r : Res A) : frames (lift (St := State W) r).
Proof. intros st. apply same_agent_refl. Qed.

Lemma frames_bind {A B} (m : M (State W) A) (k : A -> M (State W) B) :
  frames m -> (forall a, frames (k a)) -> frames (bind m k).
Proof.
  intros Hm Hk st. unfold bind. specialize (Hm st).
  destruct (m st) as [[a | e] st1]; simpl in *.
  - eapply same_agent_trans; [exact Hm | apply Hk].
  - exact Hm.
Qed.

Lemma frames_on_world {A} (f : W -> Res A * W) : frames (on_world f).
Proof. intros st. split; reflexivity. Qed.

Lemma frames_explain sql : frames (explain ext sql).
Proof.
  intros st. unfold explain, on_world.
  destruct (con_explain ext sql (world st)) as [[msg | plan] w];
    split; reflexivity.
Qed.

Lemma frames_explain_analyze sql t : frames (explain_analyze ext sql t).
Proof.
  intros st. unfold explain_analyze, on_world.
  destruct (con_explain_analyze ext sql (world st)) as [[msg | p] w];
    split; reflexivity.
Qed.

Create HintDb frames.
#[local] Hint Resolve frames_ret frames_raise frames_lift frames_bind
  frames_on_world frames_explain frames_explain_analyze : frames.

Lemma frames_warmup_loop n sql t : frames (warmup_loop ext n sql t).
Proof.
  induction n as [| n IH]; simpl; [auto with frames |].
  apply frames_bind; [auto with frames | intros r].
  apply frames_bind; [auto with frames | intros ok].
  destruct (negb (truthy ok)); auto with frames.
Qed.

Lemma frames_measured_loop n sql t acc :
  frames (measured_loop ext n sql t acc).
Proof.
  revert acc. induction n as [| n IH]; intros acc; simpl; [auto with frames |].
  apply frames_bind; [auto with frames | intros r].
  apply frames_bind; [auto with frames | intros ok].
  destruct (negb (truthy ok)); [auto with frames |].
  repeat (apply frames_bind; [auto with frames | intros ?]).
  apply IH.
Qed.

#[local] Hint Resolve frames_warmup_loop frames_measured_loop : frames.

Lemma frames_benchmark sql runs warmup t :
  frames (benchmark ext sql runs warmup t).
Proof.
  unfold benchmark.
  apply frames_bind; [auto with frames | intros nw].
  apply frames_bind; [auto with frames | intros [r |]]; [auto with frames |].
  apply frames_bind; [auto with frames | intros nr].
  apply frames_bind; [auto with frames | intros [r | acc]]; [auto with frames |].
  destruct (nth_error _ _); auto with frames.
Qed.

#[local] Hint Resolve frames_benchmark : frames.

Lemma frames_dispatch name args : frames (_dispatch ext name args).
Proof.
  unfold _dispatch.
  repeat match goal with
         | |- frames (if ?c then _ else _) => destruct c
         | |- frames (bind _ _) => apply frames_bind; [auto with frames | intros ?]
         | |- frames (match ?l with [] => _ | _ :: _ => _ end) => destruct l
         | |- _ => solve [auto with frames]
         end.
Qed.

End Frames.

(* ===================================================================== *)
(** ** The order of floats *)
(* ===================================================================== *)

Lemma SFltb_trans x y z :
  SFltb x y = true -> SFltb y z = true -> SFltb x z = true.
Proof.
  unfold SFltb, SFcompare.
  destruct x as [sx | sx | | sx mx ex], y as [sy | sy | | sy my ey],
    z as [sz | sz | | sz mz ez];
    try discriminate; try reflexivity;
    repeat match goal with s : bool |- _ => destruct s end;
    try discriminate; try reflexivity;
    change (Pos.compare_cont Eq) with Pos.compare;
    destruct (Z.compare_spec ex ey); try discriminate;
    destruct (Z.compare_spec ey ez); try discriminate;
    destruct (Z.compare_spec ex ez); try lia; try reflexivity; subst;
    destruct (Pos.compare_spec mx my); try discriminate;
    destruct (Pos.compare_spec my mz); try discriminate;
    destruct (Pos.compare_spec mx mz); try lia; try reflexivity.
Qed.

Lemma SFltb_irrefl x : SFltb x x = false.
Proof.
  unfold SFltb, SFcompare.
  destruct x as [s | s | | s m e]; try destruct s; try reflexivity;
    rewrite Z.compare_refl; change (Pos.compare_cont Eq) with Pos.compare;
    rewrite Pos.compare_refl; reflexivity.
Qed.

Lemma SFeqb_not_ltb x y : SFeqb x y = true -> SFltb x y = false.
Proof.
  unfold SFeqb, SFltb. destruct (SFcompare x y) as [[| |] |];
    intros H; try discriminate; reflexivity.
Qed.

Lemma ltb_trans (a b c : float) :
  PrimFloat.ltb a b = true -> PrimFloat.ltb b c = true ->
  PrimFloat.ltb a c = true.
Proof. rewrite !ltb_spec. apply SFltb_trans. Qed.

Lemma ltb_irrefl (a : float) : PrimFloat.ltb a a = false.
Proof. rewrite ltb_spec. apply SFltb_irrefl. Qed.

Lemma ltb_asym (a b : float) :
  PrimFloat.ltb a b = true -> PrimFloat.ltb b a = false.
Proof.
  intros H. destruct (PrimFloat.ltb b a) eqn:E; [| reflexivity].
  pose proof (ltb_trans _ _ _ H E) as T. rewrite ltb_irrefl in T.
  discriminate.
Qed.

Lemma eqb_not_ltb (a b : float) :
  PrimFloat.eqb a b = true -> PrimFloat.ltb a b = false.
Proof. rewrite eqb_spec, ltb_spec. apply SFeqb_not_ltb. Qed.

(* ===================================================================== *)
(** ** benchmark *)
(* ===================================================================== *)

Section Benchmark.

Context {W : Type} (ext : External W).

Lemma set_world_world (st : State W) : set_world st (world st) = st.
Proof. destruct st; reflexivity. Qed.

Lemma explain_analyze_ok sql t (st : State W) p w :
  con_explain_analyze ext sql (world st) = (inr p, w) ->
  explain_analyze ext sql t st
  = (Ok (VDict [("ok", VBool true);
                ("elapsed_ms_client", VFloat (ea_elapsed p));
                ("total_time_s_explain", ea_total_s p);
                ("analyze", VStr (ea_analyze p))]), set_world st w).
Proof. intros H. unfold explain_analyze, on_world. rewrite H. reflexivity. Qed.

Lemma executions_length n sql w :
  List.length (fst (executions ext n sql w)) = n.
Proof.
  revert w. induction n as [| n IH]; intros w; simpl; [reflexivity |].
  destruct (con_explain_analyze ext sql w) as [r w1].
  specialize (IH w1). destruct (executions ext n sql w1) as [rs w2].
  simpl in *. now rewrite IH.
Qed.

(** When they all succeed, the warm-up executions return nothing and leave
    the world the executions leave. *)
Lemma warmup_loop_all_ok n sql t : forall (st : State W) ps w',
  executions ext n sql (world st) = (map inr ps, w') ->
  warmup_loop ext n sql t st = (Ok None, set_world st w').
Proof.
  induction n as [| n IH]; intros st ps w' H; simpl in H.
  - inversion H; subst. simpl. now rewrite set_world_world.
  - destruct (con_explain_analyze ext sql (world st)) as [r w1] eqn:E.
    destruct (executions ext n sql w1) as [rs w2] eqn:E2.
    destruct ps as [| p ps']; inversion H; subst.
    simpl. erewrite bind_ok by (apply explain_analyze_ok; exact E).
    simpl. unfold bind, lift; simpl.
    erewrite (IH (set_world st w1)) by (simpl; exact E2).
    reflexivity.
Qed.

Lemma measured_loop_all_ok n sql t : forall (st : State W) acc ps w',
  executions ext n sql (world st) = (map inr ps, w') ->
  measured_loop ext n sql t acc st
  = (Ok (inr (fold_left measure ps acc)), set_world st w').
Proof.
  induction n as [| n IH]; intros st acc ps w' H; simpl in H.
  - destruct ps; inversion H; subst. simpl. now rewrite set_world_world.
  - destruct (con_explain_analyze ext sql (world st)) as [r w1] eqn:E.
    destruct (executions ext n sql w1) as [rs w2] eqn:E2.
    destruct ps as [| p ps']; inversion H; subst.
    simpl. erewrite bind_ok by (apply explain_analyze_ok; exact E).
    simpl. unfold bind, lift; simpl.
    erewrite (IH (set_world st w1)) by (simpl; exact E2).
    reflexivity.
Qed.

Lemma times_fold_measure ps : forall acc,
  times (fold_left measure ps acc) = times acc ++ map ea_elapsed ps.
Proof.
  induction ps as [| p ps IH]; intros acc; simpl.
  - now rewrite app_nil_r.
  - rewrite IH. simpl. now rewrite <- app_assoc.
Qed.

Lemma insert_sorted_length x l :
  List.length (insert_sorted x l) = S (List.length l).
Proof.
  induction l as [| y l IH]; simpl; [reflexivity |].
  destruct (PrimFloat.ltb x y); simpl; [reflexivity | now rewrite IH].
Qed.

Lemma sorted_length l : List.length (sorted l) = List.length l.
Proof.
  unfold sorted.
  assert (H : forall acc,
             List.length (fold_left (fun a x => insert_sorted x a) l acc)
             = (List.length acc + List.length l)%nat).
  { induction l as [| x l IH]; intros acc; simpl; [lia |].
    rewrite IH, insert_sorted_length. lia. }
  now rewrite H.
Qed.

Lemma explain_analyze_fails sql t (st : State W) msg w :
  con_explain_analyze ext sql (world st) = (inl msg, w) ->
  explain_analyze ext sql t st
  = (Ok (VDict [("ok", VBool false);
                ("error", VStr ("EXPLAIN ANALYZE failed: " ++ msg))]),
     set_world st w).
Proof. intros H. unfold explain_analyze, on_world. rewrite H. reflexivity. Qed.

Lemma executions_app a sql : forall b w,
  executions ext (a + b) sql w
  = (fst (executions ext a sql w)
     ++ fst (executions ext b sql (snd (executions ext a sql w))),
     snd (executions ext b sql (snd (executions ext a sql w)))).
Proof.
  induction a as [| a IH]; intros b w; simpl.
  - destruct (executions ext b sql w); reflexivity.
  - destruct (con_explain_analyze ext sql w) as [r w1].
    rewrite IH. destruct (executions ext a sql w1) as [rs w2]. reflexivity.
Qed.

Lemma map_inr_app_inv {A B} (ps : list B) : forall (r1 r2 : list (A + B)),
  map inr ps = r1 ++ r2 ->
  exists p1 p2, r1 = map inr p1 /\ r2 = map inr p2.
Proof.
  induction ps as [| p ps IH]; intros r1 r2 H.
  - destruct r1; [| discriminate]. destruct r2; [| discriminate].
    exists [], []. split; reflexivity.
  - destruct r1 as [| x r1].
    + exists [], (p :: ps). split; [reflexivity | symmetry; exact H].
    + inversion H; subst.
      match goal with E : map inr ps = _ |- _ =>
        destruct (IH _ _ E) as (p1 & p2 & -> & ->) end.
      exists (p :: p1), p2. split; reflexivity.
Qed.

(** The warm-up loop returns a record at the first execution that fails. *)
Lemma warmup_loop_fails n sql t : forall k (st : State W) ps w1 msg w2,
  (k < n)%nat ->
  executions ext k sql (world st) = (map inr ps, w1) ->
  con_explain_analyze ext sql w1 = (inl msg, w2) ->
  warmup_loop ext n sql t st
  = (Ok (Some (VDict [("ok", VBool false);
                      ("error", VStr ("EXPLAIN ANALYZE failed: " ++ msg))])),
     set_world st w2).
Proof.
  induction n as [| n IH]; intros k st ps w1 msg w2 Hk He Hf; [lia |].
  destruct k as [| k]; simpl in He.
  - inversion He; subst. simpl.
    erewrite bind_ok by (apply explain_analyze_fails; exact Hf).
    reflexivity.
  - destruct (con_explain_analyze ext sql (world st)) as [r w0] eqn:E.
    destruct (executions ext k sql w0) as [rs w3] eqn:E2.
    destruct ps as [| p ps']; inversion He; subst.
    simpl. erewrite bind_ok by (apply explain_analyze_ok; exact E).
    simpl. unfold bind, lift; simpl.
    erewrite (IH k (set_world st w0)) by (simpl; try eassumption; lia).
    reflexivity.
Qed.

(** The measured loop returns a record at the first execution that fails. *)
Lemma measured_loop_fails n sql t : forall k (st : State W) acc ps w1 msg w2,
  (k < n)%nat ->
  executions ext k sql (world st) = (map inr ps, w1) ->
  con_explain_analyze ext sql w1 = (inl msg, w2) ->
  measured_loop ext n sql t acc st
  = (Ok (inl (VDict [("ok", VBool false);
                     ("error", VStr ("EXPLAIN ANALYZE failed: " ++ msg))])),
     set_world st w2).
Proof.
  induction n as [| n IH]; intros k st acc ps w1 msg w2 Hk He Hf; [lia |].
  destruct k as [| k]; simpl in He.
  - inversion He; subst. simpl.
    erewrite bind_ok by (apply explain_analyze_fails; exact Hf).
    reflexivity.
  - destruct (con_explain_analyze ext sql (world st)) as [r w0] eqn:E.
    destruct (executions ext k sql w0) as [rs w3] eqn:E2.
    destruct ps as [| p ps']; inversion He; subst.
    simpl. erewrite bind_ok by (apply explain_analyze_ok; exact E).
    simpl. unfold bind, lift; simpl.
    erewrite (IH k (set_world st w0)) by (simpl; try eassumption; lia).
    reflexivity.
Qed.

(** An execution that fails, in the warm-up or among the measured runs,
    makes [benchmark] return a record with [ok] false; it does not raise. *)
Lemma benchmark_reports_a_failed_execution sql runs warmup t
    (st : State W) k ps w1 msg w2 :
  (k < Z.to_nat warmup + Z.to_nat runs)%nat ->
  executions ext k sql (world st) = (map inr ps, w1) ->
  con_explain_analyze ext sql w1 = (inl msg, w2) ->
  benchmark ext sql (VInt runs) (VInt warmup) t st
  = (Ok (VDict [("ok", VBool false);
                ("error", VStr ("EXPLAIN ANALYZE failed: " ++ msg))]),
     set_world st w2).
Proof.
  intros Hk He Hf. unfold benchmark.
  rewrite bind_lift; cbn [range_len]; cbv beta iota.
  destruct (Nat.lt_ge_cases k (Z.to_nat warmup)) as [Hlt | Hge].
  - erewrite bind_ok by (eapply warmup_loop_fails; eassumption).
    reflexivity.
  - replace k with (Z.to_nat warmup + (k - Z.to_nat warmup))%nat in He by lia.
    rewrite executions_app in He.
    destruct (executions ext (Z.to_nat warmup) sql (world st))
      as [r1 wa] eqn:Ea.
    simpl in He.
    destruct (executions ext (k - Z.to_nat warmup) sql wa) as [r2 wb] eqn:Eb.
    simpl in He. inversion He as [[Hr Hw]]. subst wb.
    symmetry in Hr.
    destruct (map_inr_app_inv _ _ _ Hr) as (p1 & p2 & -> & ->).
    erewrite bind_ok by (eapply warmup_loop_all_ok; exact Ea).
    cbv beta iota. rewrite bind_lift; cbn [range_len]; cbv beta iota.
    erewrite bind_ok
      by (eapply (measured_loop_fails _ _ _ (k - Z.to_nat warmup));
          [lia | simpl; exact Eb | exact Hf]).
    reflexivity.
Qed.

Lemma insert_sorted_permutation x l : Permutation (insert_sorted x l) (x :: l).
Proof.
  induction l as [| y l IH]; simpl; [reflexivity |].
  destruct (PrimFloat.ltb x y); [reflexivity |].
  rewrite IH. apply perm_swap.
Qed.

Lemma fold_insert_permutation l : forall acc,
  Permutation (fold_left (fun a x => insert_sorted x a) l acc) (acc ++ l).
Proof.
  induction l as [| x l IH]; intros acc; simpl.
  - now rewrite app_nil_r.
  - rewrite IH, insert_sorted_permutation.
    apply Permutation_middle.
Qed.

(** [sorted] rearranges its list. *)
Lemma sorted_permutation l : Permutation (sorted l) l.
Proof. unfold sorted. apply (fold_insert_permutation l []). Qed.

Lemma insert_sorted_ascending x l :
  Sorted not_above l -> Sorted not_above (insert_sorted x l).
Proof.
  induction l as [| y l IH]; intros H; simpl.
  - repeat constructor.
  - destruct (PrimFloat.ltb x y) eqn:E.
    + constructor; [exact H |]. constructor.
      unfold not_above. now apply ltb_asym.
    + apply Sorted_inv in H as [Hs Hh].
      constructor; [apply IH; exact Hs |].
      destruct l as [| z l]; simpl.
      * constructor. exact E.
      * destruct (PrimFloat.ltb x z); constructor;
          [exact E | now apply HdRel_inv in Hh].
Qed.

(** [sorted] leaves no element before a smaller one. *)
Lemma sorted_ascending l : Sorted not_above (sorted l).
Proof.
  unfold sorted.
  assert (H : forall acc, Sorted not_above acc ->
                Sorted not_above (fold_left (fun a x => insert_sorted x a) l acc)).
  { induction l as [| x l IH]; intros acc Ha; simpl; [exact Ha |].
    apply IH, insert_sorted_ascending, Ha. }
  apply H. constructor.
Qed.

End Benchmark.

Section BenchmarkClaim.

Context {W : Type} (ext : External W).

(** C10.  When every warm-up and every measured execution succeeds and
    [runs >= 1], [benchmark] returns a record with [ok = True], with
    [elapsed_ms] holding the [runs] samples in the order measured, and with
    [median_ms] the element at index [runs // 2] of the sorted samples (the
    samples rearranged so that none stands before a smaller one).
    When [runs <= 0] (in particular [runs = 0]) and the warm-ups succeed, the
    median indexes an empty list: the call raises [IndexError] and returns
    no record. *)
Theorem benchmark_median_needs_a_run :
  (forall sql runs warmup t (st : State W) pw pm w1 w2,
      (1 <= runs)%Z ->
      executions ext (Z.to_nat warmup) sql (world st) = (map inr pw, w1) ->
      executions ext (Z.to_nat runs) sql w1 = (map inr pm, w2) ->
      exists median a s,
        benchmark ext sql (VInt runs) (VInt warmup) t st
        = (Ok (VDict [("ok", VBool true);
                      ("runs", VInt runs);
                      ("warmup", VInt warmup);
                      ("elapsed_ms", VList (map VFloat (map ea_elapsed pm)));
                      ("median_ms", VFloat median);
                      ("analyze_sample", a);
                      ("total_time_s_explain_sample", s)]),
           set_world st w2)
        /\ List.length (map ea_elapsed pm) = Z.to_nat runs
        /\ Permutation (sorted (map ea_elapsed pm)) (map ea_elapsed pm)
        /\ Sorted not_above (sorted (map ea_elapsed pm))
        /\ nth_error (sorted (map ea_elapsed pm)) (Z.to_nat (runs / 2))
           = Some median)
  /\ (forall sql runs warmup t (st : State W) pw w1,
         (runs <= 0)%Z ->
         executions ext (Z.to_nat warmup) sql (world st) = (map inr pw, w1) ->
         benchmark ext sql (VInt runs) (VInt warmup) t st
         = (Raise IndexError, set_world st w1)).
Proof.
  split.
  - intros sql runs warmup t st pw pm w1 w2 Hruns Hw Hm.
    assert (Hlen : List.length (map ea_elapsed pm) = Z.to_nat runs).
    { pose proof (executions_length ext (Z.to_nat runs) sql w1) as L.
      rewrite Hm in L. simpl in L. now rewrite !length_map in *. }
    assert (Hidx : (Z.to_nat (runs / 2) < List.length (sorted (map ea_elapsed pm)))%nat).
    { rewrite sorted_length, Hlen.
      apply Z2Nat.inj_lt; [apply Z.div_pos; lia | lia |].
      apply Z.div_lt; lia. }
    destruct (nth_error (sorted (map ea_elapsed pm)) (Z.to_nat (runs / 2)))
      as [median |] eqn:En; [| apply nth_error_None in En; lia].
    exists median,
      (last_analyze (fold_left measure pm
         {| times := []; last_analyze := VNone; last_total_s := VNone |})),
      (last_total_s (fold_left measure pm
         {| times := []; last_analyze := VNone; last_total_s := VNone |})).
    split; [| split; [exact Hlen |]; split; [apply sorted_permutation |];
              split; [apply sorted_ascending | reflexivity]].
    unfold benchmark.
    rewrite bind_lift; cbn [range_len]; cbv beta iota.
    erewrite bind_ok by (eapply warmup_loop_all_ok; exact Hw).
    cbv beta iota. rewrite bind_lift; cbn [range_len]; cbv beta iota.
    erewrite bind_ok by (eapply measured_loop_all_ok; exact Hm).
    cbv beta iota zeta. rewrite times_fold_measure. cbn [times app].
    replace (List.length (sorted (map ea_elapsed pm)) / 2)%nat
      with (Z.to_nat (runs / 2)).
    + rewrite En. reflexivity.
    + rewrite sorted_length, Hlen.
      rewrite Z2Nat.inj_div by lia. reflexivity.
  - intros sql runs warmup t st pw w1 Hruns Hw.
    unfold benchmark.
    rewrite bind_lift; cbn [range_len]; cbv beta iota.
    erewrite bind_ok by (eapply warmup_loop_all_ok; exact Hw).
    cbv beta iota. rewrite bind_lift; cbn [range_len]; cbv beta iota.
    replace (Z.to_nat runs) with O by lia.
    reflexivity.
Qed.

End BenchmarkClaim.

(* ===================================================================== *)
(** ** The dialogue loop *)
(* ===================================================================== *)

Section Dialogue.

Context {W : Type} (ext : External W).

Lemma classify_calls items : forall calls chunks,
  classify items = Ok (calls, chunks) ->
  calls = filter is_function_call items.
Proof.
  induction items as [| item rest IH]; intros calls chunks H; simpl in H.
  - now inversion H.
  - unfold res_bind in H at 1.
    destruct (is_function_call item) eqn:Ef.
    + unfold res_bind in H.
      destruct (classify rest) as [[c k] | e] eqn:Er; inversion H; subst.
      simpl. rewrite Ef. f_equal. eapply IH; reflexivity.
    + simpl. rewrite Ef.
      assert (Hh : forall here : Res (list Dict * list PyVal),
                 (forall v, here = Ok v -> fst v = []) ->
                 match here with
                 | Ok a => more <-? classify rest ;;
                           Ok (fst a ++ fst more, snd a ++ snd more)
                 | Raise e => Raise e
                 end = Ok (calls, chunks) ->
                 calls = filter is_function_call rest).
      { intros [v | e] Hv Hc; [| discriminate].
        unfold res_bind in Hc.
        destruct (classify rest) as [[c k] | e] eqn:Er; inversion Hc; subst.
        rewrite (Hv v eq_refl). simpl. eapply IH; reflexivity. }
      eapply Hh; [| exact H].
      intros v Hv.
      destruct (eq_str (dget item "type" VNone) "message");
        [| now inversion Hv].
      destruct (dget item "content" (VList [])); try now inversion Hv.
      unfold res_bind in Hv.
      destruct (content_chunks l); now inversion Hv.
Qed.

Lemma handle_call_inv ev call (st : State W) r st' :
  handle_call ext ev call st = (r, st') ->
  gateway_log st' = gateway_log st
  /\ forall ev', r = Ok ev' ->
       exists result,
         messages st'
         = messages st
           ++ [function_call_output ext (call_identifier call) result]
         /\ List.length ev' = (List.length ev + 2)%nat.
Proof.
  unfold handle_call. intros H.
  apply bind_inv in H as [(result & st1 & Hd & Hk) | (e & Hd & ->)].
  - match type of Hd with
    | _dispatch _ ?n ?a ?s = _ =>
        pose proof (frames_dispatch ext n a s) as [Hm Hl]
    end.
    rewrite Hd in Hm, Hl. simpl in Hm, Hl.
    unfold bind, append_message, ret in Hk. inversion Hk; subst; clear Hk.
    simpl. split; [exact Hl |].
    intros ev' Hev. inversion Hev; subst. exists result.
    rewrite Hm. split; [reflexivity |].
    rewrite length_app. simpl. lia.
  - match type of Hd with
    | _dispatch _ ?n ?a ?s = _ =>
        pose proof (frames_dispatch ext n a s) as [Hm Hl]
    end.
    rewrite Hd in Hm, Hl. simpl in Hm, Hl.
    split; [exact Hl | intros ev' Hev; discriminate].
Qed.

Lemma call_identifier_eq call : call_identifier call = request_id call.
Proof.
  unfold call_identifier, request_id, py_or, dget.
  destruct (assoc_get call "call_id") as [c |]; reflexivity.
Qed.

Lemma handle_calls_inv calls : forall ev (st : State W) r st',
  handle_calls ext ev calls st = (r, st') ->
  gateway_log st' = gateway_log st
  /\ forall ev', r = Ok ev' ->
       exists outs,
         messages st' = messages st ++ outs
         /\ answers ext calls outs
         /\ List.length ev' = (List.length ev + 2 * List.length calls)%nat.
Proof.
  induction calls as [| call rest IH]; intros ev st r st' H; simpl in H.
  - unfold ret in H. inversion H; subst. split; [reflexivity |].
    intros ev' Hev. inversion Hev; subst. exists [].
    rewrite app_nil_r. repeat split; [constructor | simpl; lia].
  - apply bind_inv in H as [(ev1 & st1 & Hc & Hk) | (e & Hc & ->)].
    + apply handle_call_inv in Hc as [Hl1 Hc].
      destruct (Hc ev1 eq_refl) as (result & Hm1 & Hn1).
      apply IH in Hk as [Hl2 Hk]. split; [congruence |].
      intros ev' Hev. destruct (Hk ev' Hev) as (outs & Hm2 & Ha & Hn2).
      exists (function_call_output ext (call_identifier call) result :: outs).
      split; [| split].
      * rewrite Hm2, Hm1, <- app_assoc. reflexivity.
      * constructor; [| exact Ha]. exists result.
        unfold function_call_output. now rewrite call_identifier_eq.
      * simpl. lia.
    + apply handle_call_inv in Hc as [Hl1 _].
      split; [exact Hl1 | intros ev' Hev; discriminate].
Qed.

Lemma filter_nil_existsb {A} (f : A -> bool) l :
  filter f l = [] -> existsb f l = false.
Proof.
  induction l as [| a l IH]; simpl; [reflexivity |].
  destruct (f a); [discriminate | exact IH].
Qed.

Lemma last_entry_cons {A} (a b : A) l :
  last_entry (a :: b :: l) = last_entry (b :: l).
Proof. reflexivity. Qed.

End Dialogue.

Section DialogueInvariant.

Context {W : Type} (ext : External W).

Lemma loop_post_raise n ev (st st2 : State W) r0 e :
  gateway_log st2 = gateway_log st ++ [(messages st, r0)] ->
  loop_post ext (S n) ev st (Raise e) st2.
Proof.
  intros Hl. exists [(messages st, r0)].
  split; [exact Hl |]. split; [simpl; lia |].
  split; [reflexivity |]. split; [exact I |].
  intros text ev' Hr. discriminate Hr.
Qed.

Lemma tool_loop_inv n : forall ev (st : State W) r st',
  tool_loop ext n ev st = (r, st') -> loop_post ext n ev st r st'.
Proof.
  induction n as [| n IH]; intros ev st r st' H.
  - simpl in H. unfold ret in H. inversion H; subst. exists [].
    rewrite app_nil_r.
    split; [reflexivity |]. split; [simpl; lia |].
    split; [exact I |]. split; [exact I |].
    intros text ev' Hr. inversion Hr; subst.
    split; [simpl; lia |]. split; [reflexivity |].
    split; [exact I |]. intros _. split; reflexivity.
  - simpl in H. unfold bind at 1 in H. unfold llm_call in H at 1.
    destruct (responses_create ext (messages st) (world st)) as [r0 w] eqn:Eg.
    set (entry := (messages st, r0)) in *.
    assert (Hone : forall e st2,
               gateway_log st2 = gateway_log st ++ [entry] ->
               loop_post ext (S n) ev st (Raise e) st2).
    { intros e st2 Hl. eapply loop_post_raise. exact Hl. }
    destruct r0 as [items | e]; [| inversion H; subst; apply Hone; reflexivity].
    unfold bind at 1 in H. simpl in H.
    rewrite bind_lift in H.
    destruct (classify items) as [[calls chunks] | e] eqn:Ec;
      [| inversion H; subst; apply Hone; reflexivity].
    pose proof (classify_calls _ _ _ Ec) as Hcalls.
    destruct calls as [| c calls'].
    + (* a terminal turn *)
      rewrite bind_lift in H.
      destruct (nonblank chunks) as [texts | e];
        [| inversion H; subst; apply Hone; reflexivity].
      assert (Hp : paired ext (messages st) items
                     (messages st ++ map VDict items)).
      { exists []. rewrite app_nil_r. split; [reflexivity |].
        rewrite <- Hcalls. constructor. }
      exists [entry].
      destruct (String.eqb (Str.strip (Str.join nl texts)) "");
        unfold bind, append_message, ret in H; simpl in H;
        inversion H; subst; clear H; simpl;
        (split; [reflexivity |]); (split; [lia |]); (split; [reflexivity |]);
        (split; [exact I |]);
        intros text ev' Hr; inversion Hr; subst; clear Hr;
        rewrite <- Hcalls; simpl;
        (split; [lia |]); (split; [discriminate |]).
      * split.
        -- unfold settled; simpl. exists items, (messages st ++ map VDict items).
           split; [reflexivity |]. split; [exact Hp |]. left. reflexivity.
        -- intros Hf. inversion Hf as [| ? ? [its [Hits Hex]] _]; subst.
           simpl in Hits. inversion Hits; subst.
           rewrite (filter_nil_existsb _ _ (eq_sym Hcalls)) in Hex.
           discriminate.
      * split.
        -- unfold settled; simpl. exists items, (messages st ++ map VDict items).
           split; [reflexivity |]. split; [exact Hp |].
           right. eexists; reflexivity.
        -- intros Hf. inversion Hf as [| ? ? [its [Hits Hex]] _]; subst.
           simpl in Hits. inversion Hits; subst.
           rewrite (filter_nil_existsb _ _ (eq_sym Hcalls)) in Hex.
           discriminate.
    + (* a turn with tool calls *)
      apply bind_inv in H as [(ev1 & st3 & Hh & Hk) | (e & Hh & ->)].
      * apply handle_calls_inv in Hh as [Hl3 Hh].
        destruct (Hh ev1 eq_refl) as (outs & Hm3 & Ha & Hn3).
        simpl in Hl3, Hm3.
        apply IH in Hk as (new' & Hl' & Hle & Hs & Hc & Hok).
        assert (Hp : paired ext (messages st) items (messages st3)).
        { exists outs. rewrite Hm3, <- app_assoc. split; [reflexivity |].
          rewrite <- Hcalls. exact Ha. }
        exists (entry :: new'). split; [| split; [| split; [| split]]].
        -- rewrite Hl', Hl3, <- app_assoc. reflexivity.
        -- simpl. lia.
        -- reflexivity.
        -- destruct new' as [| [t2 r2] rest]; [exact I |].
           simpl in Hs. subst t2. split; [| exact Hc].
           exists items. split; [reflexivity | exact Hp].
        -- intros text ev' Hr.
           destruct (Hok text ev' Hr) as (Hn & Hnil & Hset & Hex).
           split; [| split; [| split]].
           ++ simpl. rewrite <- Hcalls. simpl in *. lia.
           ++ discriminate.
           ++ destruct new' as [| e2 rest].
              ** unfold settled; simpl. exists items, (messages st3).
                 split; [reflexivity |]. split; [exact Hp |].
                 left. apply Hnil. reflexivity.
              ** unfold settled in *. rewrite last_entry_cons. exact Hset.
           ++ intros Hf. inversion Hf as [| ? ? _ Hf']; subst.
              destruct (Hex Hf') as [-> <-]. split; reflexivity.
      * apply handle_calls_inv in Hh as [Hl3 _]. simpl in Hl3.
        apply Hone. exact Hl3.
Qed.

Lemma filter_cons_existsb {A} (f : A -> bool) l a rest :
  a :: rest = filter f l -> existsb f l = true.
Proof.
  induction l as [| b l IH]; simpl; [discriminate |].
  destruct (f b); [reflexivity | exact IH].
Qed.

Lemma tool_loop_text n : forall ev (st : State W) text ev' st',
  tool_loop ext n ev st = (Ok (text, ev'), st') ->
  exists new,
    gateway_log st' = gateway_log st ++ new
    /\ ((text = Some sentinel /\ Forall asks_for_tools new)
        \/ exists t items,
             last_entry new = Some (t, Ok items)
             /\ existsb is_function_call items = false
             /\ spoken items text).
Proof.
  induction n as [| n IH]; intros ev st text ev' st' H.
  - simpl in H. unfold ret in H. inversion H; subst. exists [].
    rewrite app_nil_r. split; [reflexivity |].
    left. split; [reflexivity | constructor].
  - simpl in H. unfold bind at 1 in H. unfold llm_call in H at 1.
    destruct (responses_create ext (messages st) (world st)) as [r0 w] eqn:Eg.
    destruct r0 as [items | e]; [| now inversion H].
    unfold bind at 1 in H. simpl in H.
    rewrite bind_lift in H.
    destruct (classify items) as [[calls chunks] | e] eqn:Ec;
      [| now inversion H].
    pose proof (classify_calls _ _ _ Ec) as Hcalls.
    destruct calls as [| c calls'].
    + rewrite bind_lift in H.
      destruct (nonblank chunks) as [texts | e] eqn:En; [| now inversion H].
      exists [(messages st, Ok items)].
      destruct (String.eqb (Str.strip (Str.join nl texts)) "") eqn:Eb;
        unfold bind, append_message, ret in H; simpl in H;
        inversion H; subst; clear H; simpl;
        (split; [reflexivity |]); right; exists (messages st), items;
        (split; [reflexivity |]);
        (split; [exact (filter_nil_existsb _ _ (eq_sym Hcalls)) |]);
        exists chunks, texts; rewrite Eb; repeat split; assumption.
    + apply bind_inv in H as [(ev1 & st3 & Hh & Hk) | (e & Hh & Hr)];
        [| discriminate Hr].
      apply handle_calls_inv in Hh as [Hl3 _]. simpl in Hl3.
      apply IH in Hk as (new' & Hl' & Hcase).
      exists ((messages st, Ok items) :: new'). split.
      * rewrite Hl', Hl3, <- app_assoc. reflexivity.
      * destruct Hcase as [[Ht Hf] | (t & its & Hlast & Hex & Hsp)].
        -- left. split; [exact Ht |]. constructor; [| exact Hf].
           exists items. split; [reflexivity |].
           exact (filter_cons_existsb _ _ _ _ Hcalls).
        -- right. exists t, its. split; [| split; assumption].
           destruct new' as [| e2 rest]; [discriminate Hlast |].
           rewrite last_entry_cons. exact Hlast.
Qed.

End DialogueInvariant.

Section DialogueClaims.

Context {W : Type} (ext : External W).

(** C1.  In every execution of [run_tool_loop], the transcript sent with a
    Model Gateway call is the transcript of the call before it, then the
    items that call returned, then exactly one record of type
    [function_call_output] for each of their [function_call] items, in
    their order, and nothing else.  The [call_id] of the record is the
    [call_id] of its item when the item has one that is neither [None] nor
    empty nor another value read as false; otherwise it is the [id] of the
    item, also when a [call_id] is present.  When the loop returns, the
    same holds of its last call and the transcript it leaves, up to the
    assistant message of a terminal turn. *)
Theorem every_tool_call_is_answered (cfg : AgentConfig) (st : State W) :
  exists new,
    gateway_log (snd (run_tool_loop ext cfg st)) = gateway_log st ++ new
    /\ starts_from (messages st) new
    /\ chain ext new
    /\ (forall v, fst (run_tool_loop ext cfg st) = Ok v ->
        settled ext new (messages (snd (run_tool_loop ext cfg st)))).
Proof.
  unfold run_tool_loop.
  destruct (tool_loop ext (Z.to_nat (max_tool_steps cfg)) [] st)
    as [r st'] eqn:E.
  apply tool_loop_inv in E as (new & Hl & _ & Hs & Hc & Hok).
  exists new. simpl. repeat split; auto.
  intros [text ev] Hr. apply (Hok text ev Hr).
Qed.

(** C3.  [run_tool_loop] is a total function: every execution ends.  It
    makes at most [max_tool_steps] Model Gateway calls.  When it returns
    after every one of its calls came back with tool calls (no terminal
    turn), the text is the sentinel, which is a string, not [None], and is
    not empty, and all [max_tool_steps] calls were made; the event log
    returned holds two events for each tool call requested.  When it
    returns otherwise, its last call came back without a tool call and the
    text is what that turn spoke: the stripped text of the model, or [None]
    when that is blank.  The sentinel is a fixed text, so a turn that
    speaks it returns the same text. *)
Theorem run_tool_loop_stops_within_budget (cfg : AgentConfig) (st : State W) :
  exists new,
    gateway_log (snd (run_tool_loop ext cfg st)) = gateway_log st ++ new
    /\ (List.length new <= Z.to_nat (max_tool_steps cfg))%nat
    /\ (forall text ev, fst (run_tool_loop ext cfg st) = Ok (text, ev) ->
        List.length ev = (2 * calls_in new)%nat
        /\ (Forall asks_for_tools new ->
            text = Some sentinel
            /\ text <> None
            /\ text <> Some EmptyString
            /\ List.length new = Z.to_nat (max_tool_steps cfg))
        /\ (Forall asks_for_tools new
            \/ exists t items,
                 last_entry new = Some (t, Ok items)
                 /\ existsb is_function_call items = false
                 /\ spoken items text)).
Proof.
  unfold run_tool_loop.
  destruct (tool_loop ext (Z.to_nat (max_tool_steps cfg)) [] st)
    as [r st'] eqn:E.
  pose proof (tool_loop_inv ext _ _ _ _ _ E) as (new & Hl & Hle & _ & _ & Hok).
  exists new. simpl. split; [exact Hl |]. split; [exact Hle |].
  intros text ev Hr. destruct (Hok text ev Hr) as (Hn & _ & _ & Hex).
  split; [exact Hn |]. split.
  - intros Hf. destruct (Hex Hf) as [-> Hlen].
    repeat split; [discriminate | discriminate | exact Hlen].
  - simpl in Hr. subst r.
    apply tool_loop_text in E as (new2 & Hl2 & Hcase).
    rewrite Hl in Hl2. apply app_inv_head in Hl2. subst new2.
    destruct Hcase as [[_ Hf] | Hterm]; [left; exact Hf | right; exact Hterm].
Qed.

Lemma registered_false name :
  registered name = false ->
  eq_str name "list_tables" = false
  /\ eq_str name "table_exists" = false
  /\ eq_str name "describe_relation" = false
  /\ eq_str name "explain" = false
  /\ eq_str name "benchmark" = false.
Proof.
  unfold registered. simpl. intros H.
  repeat (apply orb_false_elim in H as [? H]). auto.
Qed.

Lemma dispatch_unregistered name args (st : State W) :
  registered name = false ->
  _dispatch ext name args st
  = (Ok (VDict [("ok", VBool false);
                ("error", VStr ("Unknown tool: " ++ py_str ext name));
                ("name", name);
                ("args", args)]), st).
Proof.
  intros H. apply registered_false in H as (H1 & H2 & H3 & H4 & H5).
  unfold _dispatch. rewrite H1, H2, H3, H4, H5. reflexivity.
Qed.

(** C5.  Dispatching a name that is not one of the five registered names
    never raises: it returns [ok = False] with the error text
    [Unknown tool: <name>], the name and the arguments, and changes nothing.
    The loop then records the call and its result, appends the tool-result
    record to the transcript, and goes on to its next step. *)
Theorem unknown_tool_is_reported :
  (forall name args (st : State W),
      registered name = false ->
      _dispatch ext name args st
      = (Ok (VDict [("ok", VBool false);
                    ("error", VStr ("Unknown tool: " ++ py_str ext name));
                    ("name", name);
                    ("args", args)]), st))
  /\ (forall s args (st : State W),
         registered (VStr s) = false ->
         exists result,
           _dispatch ext (VStr s) args st = (Ok result, st)
           /\ get result "ok" VNone = Ok (VBool false)
           /\ get result "error" VNone = Ok (VStr ("Unknown tool: " ++ s)))
  /\ (forall n ev (st : State W) call w,
         responses_create ext (messages st) (world st) = (Ok [call], w) ->
         is_function_call call = true ->
         registered (dget call "name" VNone) = false ->
         let name := dget call "name" VNone in
         let args := decode_arguments ext (dget call "arguments" (VStr "{}")) in
         let result :=
           VDict [("ok", VBool false);
                  ("error", VStr ("Unknown tool: " ++ py_str ext name));
                  ("name", name);
                  ("args", args)] in
         tool_loop ext (S n) ev st
         = tool_loop ext n
             (ev ++ [tool_call_event name args; tool_result_event name result])
             {| messages :=
                  messages st
                  ++ [VDict call;
                      function_call_output ext (call_identifier call) result];
                world := w;
                gateway_log := gateway_log st ++ [(messages st, Ok [call])] |}).
Proof.
  split; [| split].
  - intros name args st H. now apply dispatch_unregistered.
  - intros s args st H. eexists. split; [now apply dispatch_unregistered |].
    split; reflexivity.
  - intros n ev st call w Hg Hf Hr name args result.
    simpl. unfold bind at 1. unfold llm_call at 1. rewrite Hg.
    unfold bind at 1. cbn [extend_messages map classify res_bind].
    rewrite Hf. cbn [res_bind fst snd app]. rewrite bind_lift.
    cbn [handle_calls]. unfold handle_call.
    erewrite bind_ok; [| erewrite bind_ok; [| erewrite bind_ok;
      [| apply dispatch_unregistered; exact Hr]; reflexivity]; reflexivity].
    cbn [messages world gateway_log]. rewrite <- app_assoc. reflexivity.
Qed.

End DialogueClaims.

(* ===================================================================== *)
(** ** The optimization loop *)
(* ===================================================================== *)

Lemma judge_failed thr b c t bench v :
  get bench "ok" VNone = Ok v -> truthy v = false ->
  judge thr b c t bench = Ok (b, Continue).
Proof. intros Hg Hv. unfold judge. rewrite Hg. simpl. now rewrite Hv. Qed.

Lemma judge_measured thr b c t bench v m :
  get bench "ok" VNone = Ok v -> truthy v = true ->
  getitem bench "median_ms" = Ok (VFloat m) ->
  PrimFloat.eqb (base_ms b) 0 = false ->
  judge thr b c t bench
  = Ok (if PrimFloat.ltb m (base_ms b) then adopted b c t bench m else b,
        if PrimFloat.leb thr ((base_ms b - m) / base_ms b * 100)%float
        then Break else Continue).
Proof.
  intros Hg Hv Hm Hz. unfold judge. rewrite Hg. simpl. rewrite Hv. simpl.
  rewrite Hm. simpl. rewrite Hz. reflexivity.
Qed.

Lemma judge_inv thr b c t bench b' flow :
  judge thr b c t bench = Ok (b', flow) ->
  b' = b
  \/ exists m,
       getitem bench "median_ms" = Ok (VFloat m)
       /\ PrimFloat.ltb m (base_ms b) = true
       /\ b' = adopted b c t bench m.
Proof.
  unfold judge. destruct (get bench "ok" VNone) as [v | e]; [| discriminate].
  simpl. destruct (negb (truthy v)); [intros H; inversion H; now left |].
  destruct (getitem bench "median_ms") as [x | e]; [| discriminate].
  simpl. destruct x; try discriminate. simpl.
  destruct (PrimFloat.eqb (base_ms b) 0); [discriminate |].
  destruct (PrimFloat.ltb f (base_ms b)) eqn:El; intros H; inversion H.
  - right. exists f. repeat split; auto.
  - now left.
Qed.

Section OptimizeFacts.

Context {W : Type} (ext : External W).
Variables (runs warmup timeout_s : Z) (thr : float).

Local Abbreviation round' := (round ext runs warmup timeout_s thr).
Local Abbreviation rounds' := (rounds ext runs warmup timeout_s thr).
Local Abbreviation dialogue b :=
  (optimize_once ext agent_cfg (best_sql b) runs warmup timeout_s false).
Local Abbreviation bench_of sql :=
  (benchmark ext (VStr sql) (VInt runs) (VInt warmup) (VInt timeout_s)).


(** A round whose dialogue yields a candidate judges its benchmark. *)
Lemma round_judges_candidate b (st : State W) out st1 cand bench st2 :
  dialogue b st = (Ok out, st1) ->
  _extract_sql_from_model (final_text_of out) = Some cand ->
  cand <> EmptyString ->
  bench_of cand st1 = (Ok bench, st2) ->
  round' b st = (judge thr b cand (final_text_of out) bench, st2).
Proof.
  intros Hd Hx Hne Hb. unfold round. rewrite (bind_ok _ _ _ _ _ Hd).
  cbv zeta. rewrite Hx.
  destruct (String.eqb_spec cand ""); [contradiction |].
  rewrite (bind_ok _ _ _ _ _ Hb). reflexivity.
Qed.

Lemma round_inv b (st : State W) b' flow st' :
  round' b st = (Ok (b', flow), st') ->
  b' = b
  \/ exists c t bench m,
       getitem bench "median_ms" = Ok (VFloat m)
       /\ PrimFloat.ltb m (base_ms b) = true
       /\ b' = adopted b c t bench m.
Proof.
  unfold round. intros H.
  apply bind_inv in H as [(out & st1 & Hd & Hk) | (e & _ & Hr)];
    [| discriminate].
  cbv zeta in Hk.
  destruct (_extract_sql_from_model (final_text_of out)) as [cand |];
    [| inversion Hk; now left].
  destruct (String.eqb cand ""); [inversion Hk; now left |].
  apply bind_inv in Hk as [(bench & st2 & Hb & Hj) | (e & _ & Hr)];
    [| discriminate].
  unfold lift in Hj. inversion Hj as [[Hj' Hs]].
  apply judge_inv in Hj' as [-> | (m & Hm & Hl & ->)]; [now left |].
  right. exists cand, (final_text_of out), bench, m. auto.
Qed.

Lemma rounds_step n b (st : State W) :
  rounds' (S n) b st
  = match round' b st with
    | (Ok (b', Break), st') => (Ok b', st')
    | (Ok (b', Continue), st') => rounds' n b' st'
    | (Raise e, st') => (Raise e, st')
    end.
Proof.
  simpl. unfold bind.
  destruct (round ext runs warmup timeout_s thr b st) as [[[b' [|]] | e] st'];
    reflexivity.
Qed.

(** Over any number of rounds the locals are untouched or the reference has
    become strictly smaller. *)
Lemma rounds_ratchet n : forall b (st : State W) b' st',
  rounds' n b st = (Ok b', st') ->
  b' = b \/ PrimFloat.ltb (base_ms b') (base_ms b) = true.
Proof.
  induction n as [| n IH]; intros b st b' st' H.
  - inversion H. now left.
  - rewrite rounds_step in H.
    destruct (round ext runs warmup timeout_s thr b st)
      as [[[b1 flow] | e] st1] eqn:Er; [| discriminate].
    assert (H1 : b1 = b \/ PrimFloat.ltb (base_ms b1) (base_ms b) = true).
    { apply round_inv in Er as [-> | (c & t & bench & m & _ & Hl & ->)];
        [now left | right; exact Hl]. }
    destruct flow.
    + apply IH in H as [-> | H2]; [exact H1 |].
      destruct H1 as [-> | H1]; [now right |].
      right. eapply ltb_trans; eassumption.
    + inversion H; subst. exact H1.
Qed.

End OptimizeFacts.

Section OptimizeClaims.

Context {W : Type} (ext : External W).
Variables (runs warmup timeout_s : Z) (thr : float).

Local Abbreviation round' := (round ext runs warmup timeout_s thr).
Local Abbreviation rounds' := (rounds ext runs warmup timeout_s thr).
Local Abbreviation optimize' := (optimize ext runs warmup timeout_s thr).
Local Abbreviation dialogue b :=
  (optimize_once ext agent_cfg (best_sql b) runs warmup timeout_s false).
Local Abbreviation bench_of sql :=
  (benchmark ext (VStr sql) (VInt runs) (VInt warmup) (VInt timeout_s)).

(** C2.  A round changes the best candidate and the reference only when the
    candidate's median is strictly smaller than the reference; a median
    equal to the reference changes nothing.  So over the rounds the
    reference is untouched or has become strictly smaller, and a run that
    returns leaves a reference that is the baseline's measured median or a
    strictly smaller one, never a larger one. *)
Theorem best_is_replaced_only_by_a_strictly_faster_candidate :
  (forall b (st : State W) b' flow st',
      round' b st = (Ok (b', flow), st') ->
      b' = b
      \/ exists cand_sql final_text cand_bench cand_ms,
           getitem cand_bench "median_ms" = Ok (VFloat cand_ms)
           /\ PrimFloat.ltb cand_ms (base_ms b) = true
           /\ b' = adopted b cand_sql final_text cand_bench cand_ms)
  /\ (forall b cand_sql final_text cand_bench cand_ms b' flow,
         getitem cand_bench "median_ms" = Ok (VFloat cand_ms) ->
         PrimFloat.eqb cand_ms (base_ms b) = true ->
         judge thr b cand_sql final_text cand_bench = Ok (b', flow) ->
         b' = b)
  /\ (forall n b (st : State W) b' st',
         rounds' n b st = (Ok b', st') ->
         b' = b \/ PrimFloat.ltb (base_ms b') (base_ms b) = true)
  /\ (forall bad_sql max_iters (st : State W) final st',
         optimize' bad_sql max_iters st = (Ok final, st') ->
         exists base_bench st1 median0,
           bench_of bad_sql st = (Ok base_bench, st1)
           /\ getitem base_bench "median_ms" = Ok (VFloat median0)
           /\ (final = {| best_sql := bad_sql; base_ms := median0;
                          best_report := None |}
               \/ PrimFloat.ltb (base_ms final) median0 = true)
           /\ PrimFloat.ltb median0 (base_ms final) = false).
Proof.
  split; [| split; [| split]].
  - intros b st b' flow st' H. eapply round_inv. exact H.
  - intros b c t bench m b' flow Hm He Hj.
    apply judge_inv in Hj as [-> | (m' & Hm' & Hl & _)]; [reflexivity |].
    rewrite Hm in Hm'. inversion Hm'; subst m'.
    rewrite (eqb_not_ltb _ _ He) in Hl. discriminate.
  - intros n b st b' st' H. eapply rounds_ratchet. exact H.
  - intros bad_sql max_iters st final st' H. unfold optimize in H.
    apply bind_inv in H as [(bench & st1 & Hb & H) | (e & _ & Hr)];
      [| discriminate].
    rewrite bind_lift in H.
    destruct (get bench "ok" VNone) as [v | e]; [| discriminate].
    destruct (negb (truthy v)); [discriminate |].
    rewrite bind_lift in H.
    destruct (getitem bench "median_ms") as [x | e] eqn:Em; [| discriminate].
    rewrite bind_lift in H.
    destruct x; try discriminate. simpl in H.
    exists bench, st1, f. split; [exact Hb |]. split; [exact Em |].
    apply rounds_ratchet in H as [-> | Hl].
    + split; [now left | apply ltb_irrefl].
    + split; [now right | now apply ltb_asym].
Qed.

(** C6.  In a round whose candidate benchmark succeeds, against a reference
    that is not zero, the improvement is
    [(reference - candidate) / reference * 100] with the current reference;
    the round breaks out of the loop exactly when the improvement is at
    least the threshold, and then the run ends with the locals of that
    round.  The candidate is adopted, with this improvement in its report,
    when its median is smaller.  A reference of 120 ms and a candidate of
    90 ms give 25.0: the candidate is adopted and the run stops for every
    threshold of at most 25. *)
Theorem improvement_decides_early_stop :
  (forall b (st : State W) out st1 cand bench st2 v cand_ms,
      dialogue b st = (Ok out, st1) ->
      _extract_sql_from_model (final_text_of out) = Some cand ->
      cand <> EmptyString ->
      bench_of cand st1 = (Ok bench, st2) ->
      get bench "ok" VNone = Ok v -> truthy v = true ->
      getitem bench "median_ms" = Ok (VFloat cand_ms) ->
      PrimFloat.eqb (base_ms b) 0 = false ->
      let improve_pct := ((base_ms b - cand_ms) / base_ms b * 100)%float in
      let b' := if PrimFloat.ltb cand_ms (base_ms b)
                then adopted b cand (final_text_of out) bench cand_ms
                else b in
      round' b st
      = (Ok (b', if PrimFloat.leb thr improve_pct then Break else Continue),
         st2)
      /\ forall n,
           rounds' (S n) b st
           = if PrimFloat.leb thr improve_pct then (Ok b', st2)
             else rounds' n b' st2)
  /\ ((120 - 90) / 120 * 100 = 25)%float
  /\ (forall b cand text bench v,
         base_ms b = 120%float ->
         get bench "ok" VNone = Ok v -> truthy v = true ->
         getitem bench "median_ms" = Ok (VFloat 90) ->
         PrimFloat.leb thr 25 = true ->
         judge thr b cand text bench
         = Ok ({| best_sql := cand;
                  base_ms := 90;
                  best_report := Some (report bench text 25) |}, Break)).
Proof.
  split; [| split].
  - intros b st out st1 cand bench st2 v m Hd Hx Hne Hb Hg Hv Hm Hz pct b'.
    assert (Hr : round' b st
                 = (Ok (b', if PrimFloat.leb thr pct then Break else Continue),
                    st2)).
    { erewrite round_judges_candidate by eassumption.
      erewrite judge_measured by eassumption. reflexivity. }
    split; [exact Hr |].
    intros n. rewrite rounds_step, Hr.
    destruct (PrimFloat.leb thr pct); reflexivity.
  - reflexivity.
  - intros b cand text bench v Hb Hg Hv Hm Ht.
    erewrite judge_measured; try eassumption.
    + rewrite Hb. unfold adopted. rewrite Hb.
      change ((120 - 90) / 120 * 100)%float with 25%float.
      rewrite Ht. reflexivity.
    + rewrite Hb. reflexivity.
Qed.

(** C8.  A candidate benchmark that fails ([ok] false) raises nothing and
    changes nothing: the round ends with the best and the reference it
    began with, and the loop goes on to the next round.  A baseline
    benchmark that fails ends the whole run with [typer.Exit(code=1)],
    before any round and without another baseline.  An execution that
    fails inside [benchmark] is such a failure: [benchmark] returns a
    record with [ok] false and raises nothing. *)
Theorem only_a_failed_baseline_fails_the_run :
  (forall b (st : State W) out st1 cand bench st2 v,
      dialogue b st = (Ok out, st1) ->
      _extract_sql_from_model (final_text_of out) = Some cand ->
      cand <> EmptyString ->
      bench_of cand st1 = (Ok bench, st2) ->
      get bench "ok" VNone = Ok v -> truthy v = false ->
      round' b st = (Ok (b, Continue), st2)
      /\ forall n, rounds' (S n) b st = rounds' n b st2)
  /\ (forall bad_sql max_iters (st : State W) bench st1 v,
         bench_of bad_sql st = (Ok bench, st1) ->
         get bench "ok" VNone = Ok v -> truthy v = false ->
         optimize' bad_sql max_iters st = (Raise (Exit 1), st1)
         /\ gateway_log st1 = gateway_log st)
  /\ (forall sql (st : State W) k ps w1 msg w2,
         (k < Z.to_nat warmup + Z.to_nat runs)%nat ->
         executions ext k (VStr sql) (world st) = (map inr ps, w1) ->
         con_explain_analyze ext (VStr sql) w1 = (inl msg, w2) ->
         exists bench,
           bench_of sql st = (Ok bench, set_world st w2)
           /\ get bench "ok" VNone = Ok (VBool false)).
Proof.
  split; [| split].
  - intros b st out st1 cand bench st2 v Hd Hx Hne Hb Hg Hv.
    assert (Hr : round' b st = (Ok (b, Continue), st2)).
    { erewrite round_judges_candidate by eassumption.
      erewrite judge_failed by eassumption. reflexivity. }
    split; [exact Hr |]. intros n. rewrite rounds_step, Hr. reflexivity.
  - intros bad_sql max_iters st bench st1 v Hb Hg Hv. split.
    + unfold optimize. rewrite (bind_ok _ _ _ _ _ Hb).
      rewrite bind_lift, Hg, Hv. reflexivity.
    + pose proof (frames_benchmark ext (VStr bad_sql) (VInt runs)
                    (VInt warmup) (VInt timeout_s) st) as [_ Hl].
      rewrite Hb in Hl. exact Hl.
  - intros sql st k ps w1 msg w2 Hk He Hf. eexists. split.
    + eapply benchmark_reports_a_failed_execution; eassumption.
    + reflexivity.
Qed.

End OptimizeClaims.

(* ===================================================================== *)
(** ** Extracting the candidate *)
(* ===================================================================== *)

Local Open Scope string_scope.

Lemma drop_app_length a b : Str.drop (String.length a) (a ++ b) = b.
Proof. induction a as [| c a IH]; simpl; [reflexivity | exact IH]. Qed.

Lemma append_assoc' (a b c : string) : (a ++ b) ++ c = a ++ b ++ c.
Proof. induction a as [| x a IH]; simpl; [reflexivity | now rewrite IH]. Qed.


Lemma starts_with_ci_split p : forall s,
  starts_with_ci p s = true ->
  exists opener tail,
    s = opener ++ tail
    /\ String.length opener = String.length p
    /\ starts_with_ci p opener = true.
Proof.
  induction p as [| x p IH]; intros s H.
  - exists "", s. repeat split.
  - destruct s as [| y s]; simpl in H; [discriminate |].
    apply andb_true_iff in H as [H1 H2].
    destruct (IH s H2) as (o & t & -> & Hl & Ho).
    exists (String y o), t. simpl. rewrite H1, Ho, Hl. repeat split.
Qed.

Lemma starts_with_split p : forall s,
  Str.starts_with p s = true -> exists rest, s = p ++ rest.
Proof.
  induction p as [| x p IH]; intros s H.
  - exists s. reflexivity.
  - destruct s as [| y s]; simpl in H; [discriminate |].
    apply andb_true_iff in H as [H1 H2].
    apply Ascii.eqb_eq in H1. subst y.
    destruct (IH s H2) as (rest & ->). exists rest. reflexivity.
Qed.

Lemma space_is_not_backquote c s :
  Str.is_space c = true -> Str.starts_with fence (String c s) = false.
Proof.
  intros H.
  change (Str.starts_with fence (String c s))
    with (Ascii.eqb "`"%char c && Str.starts_with "``" s)%bool.
  destruct (Ascii.eqb_spec "`"%char c) as [<- | _];
    [vm_compute in H; discriminate H | reflexivity].
Qed.

Lemma lazy_group_eq s :
  lazy_group s
  = if Str.starts_with fence s then Some ""
    else match s with
         | "" => None
         | String c s' => option_map (String c) (lazy_group s')
         end.
Proof. destruct s; reflexivity. Qed.

Lemma space_then_group_cons c s :
  space_then_group (String c s)
  = if Str.is_space c then
      match space_then_group s with
      | Some g => Some g
      | None => lazy_group (String c s)
      end
    else lazy_group (String c s).
Proof. reflexivity. Qed.

Lemma search_eq s :
  SQL_BLOCK_RE_search s
  = match match_here s with
    | Some g => Some g
    | None =>
        match s with
        | "" => None
        | String _ s' => SQL_BLOCK_RE_search s'
        end
    end.
Proof. destruct s; reflexivity. Qed.


Lemma lazy_group_inv s : forall g,
  lazy_group s = Some g ->
  exists rest,
    s = g ++ fence ++ rest
    /\ forall i, (i < String.length g)%nat ->
                 Str.starts_with fence (Str.drop i s) = false.
Proof.
  induction s as [| c s IH]; intros g H.
  - simpl in H. discriminate.
  - rewrite lazy_group_eq in H.
    destruct (Str.starts_with fence (String c s)) eqn:E.
    + inversion H; subst g.
      destruct (starts_with_split _ _ E) as (rest & Hr).
      exists rest. split; [exact Hr | intros i Hi; simpl in Hi; lia].
    + destruct (lazy_group s) as [g' |] eqn:El; [| discriminate].
      simpl in H. inversion H; subst g.
      destruct (IH g' eq_refl) as (rest & -> & Hi).
      exists rest. split; [reflexivity |].
      intros [| i] Hlt; [exact E |].
      simpl. apply Hi. simpl in Hlt. lia.
Qed.





Lemma contains_eq needle hay :
  Str.contains needle hay
  = (Str.starts_with needle hay
     || match hay with
        | "" => false
        | String _ hay' => Str.contains needle hay'
        end)%bool.
Proof. destruct hay; reflexivity. Qed.

Lemma lazy_group_some_contains t : forall g,
  lazy_group t = Some g -> Str.contains fence t = true.
Proof.
  induction t as [| c t IH]; intros g H; rewrite lazy_group_eq in H;
    rewrite contains_eq.
  - simpl in H. discriminate.
  - destruct (Str.starts_with fence (String c t)); [reflexivity |].
    destruct (lazy_group t) as [g' |] eqn:El; [| discriminate].
    rewrite (IH g' eq_refl). reflexivity.
Qed.

Lemma lazy_group_none t :
  lazy_group t = None -> Str.contains fence t = false.
Proof.
  induction t as [| c t IH]; intros H; rewrite lazy_group_eq in H;
    rewrite contains_eq.
  - reflexivity.
  - destruct (Str.starts_with fence (String c t)); [discriminate |].
    destruct (lazy_group t) as [g' |] eqn:El; [discriminate |].
    rewrite IH; reflexivity.
Qed.

Lemma space_then_group_none_lazy t :
  space_then_group t = None -> lazy_group t = None.
Proof.
  destruct t as [| c t]; [trivial |].
  rewrite space_then_group_cons.
  destruct (Str.is_space c); [| trivial].
  destruct (space_then_group t); [discriminate | trivial].
Qed.

Lemma space_then_group_some_contains t : forall g,
  space_then_group t = Some g -> Str.contains fence t = true.
Proof.
  induction t as [| c t IH]; intros g H.
  - eapply lazy_group_some_contains. exact H.
  - rewrite space_then_group_cons in H.
    destruct (Str.is_space c);
      [| eapply lazy_group_some_contains; exact H].
    destruct (space_then_group t) as [g' |] eqn:Es;
      [| eapply lazy_group_some_contains; exact H].
    rewrite contains_eq, (IH g' eq_refl). apply orb_true_r.
Qed.

Lemma contains_drop_mono p n : forall s,
  Str.contains p (Str.drop (S n) s) = true ->
  Str.contains p (Str.drop n s) = true.
Proof.
  induction n as [| n IH]; intros s H.
  - destruct s as [| c s]; [exact H |].
    change (Str.drop 1 (String c s)) with s in H.
    change (Str.drop 0 (String c s)) with (String c s).
    rewrite contains_eq, H. apply orb_true_r.
  - destruct s as [| c s]; [exact H |].
    change (Str.drop (S (S n)) (String c s)) with (Str.drop (S n) s) in H.
    change (Str.drop (S n) (String c s)) with (Str.drop n s).
    apply IH. exact H.
Qed.

(** A match leaves a closing fence after the sixth character of the text
    it was found in. *)
Lemma search_some_contains s : forall g,
  SQL_BLOCK_RE_search s = Some g -> Str.contains fence (Str.drop 6 s) = true.
Proof.
  induction s as [| c s IH]; intros g H; rewrite search_eq in H.
  - vm_compute in H. discriminate.
  - destruct (match_here (String c s)) as [g0 |] eqn:Em.
    + unfold match_here in Em.
      destruct (starts_with_ci "```sql" (String c s)); [| discriminate].
      eapply space_then_group_some_contains. exact Em.
    + apply IH in H. apply contains_drop_mono in H.
      change (Str.drop 6 (String c s)) with (Str.drop 5 s). exact H.
Qed.

(** An opening fence that starts no match is followed by no match. *)
Lemma no_match_after_open_fence c s :
  starts_with_ci "```sql" (String c s) = true ->
  match_here (String c s) = None ->
  SQL_BLOCK_RE_search s = None.
Proof.
  intros Ho Hm. unfold match_here in Hm. rewrite Ho in Hm.
  apply space_then_group_none_lazy, lazy_group_none in Hm.
  destruct (SQL_BLOCK_RE_search s) as [g |] eqn:Es; [| reflexivity].
  apply search_some_contains, contains_drop_mono in Es.
  change (Str.drop 6 (String c s)) with (Str.drop 5 s) in Hm.
  rewrite Es in Hm. discriminate.
Qed.

Lemma space_then_group_inv s : forall g,
  space_then_group s = Some g ->
  exists ws rest,
    s = ws ++ g ++ fence ++ rest
    /\ Str.all_space ws = true
    /\ (forall c g', g = String c g' -> Str.is_space c = false)
    /\ (forall i, (i < String.length g)%nat ->
                  Str.starts_with fence (Str.drop i (g ++ fence ++ rest)) = false).
Proof.
  induction s as [| c s IH]; intros g H.
  - vm_compute in H. discriminate.
  - rewrite space_then_group_cons in H.
    assert (Hlazy : Str.is_space c = false ->
                    lazy_group (String c s) = Some g ->
                    exists ws rest,
                      String c s = ws ++ g ++ fence ++ rest
                      /\ Str.all_space ws = true
                      /\ (forall c g', g = String c g' -> Str.is_space c = false)
                      /\ (forall i, (i < String.length g)%nat ->
                                    Str.starts_with fence
                                      (Str.drop i (g ++ fence ++ rest)) = false)).
    { intros Ec Hl. pose proof Hl as Hl'.
      apply lazy_group_inv in Hl as (rest & Hs & Hf).
      exists "", rest. split; [exact Hs |]. split; [reflexivity |].
      split; [| rewrite <- Hs; exact Hf].
      intros c0 g' ->. rewrite lazy_group_eq in Hl'.
      destruct (Str.starts_with fence (String c s)); [discriminate |].
      destruct (lazy_group s); [| discriminate].
      simpl in Hl'. inversion Hl'; subst. exact Ec. }
    destruct (Str.is_space c) eqn:Ec; [| now apply Hlazy].
    destruct (space_then_group s) as [g0 |] eqn:Es.
    + inversion H; subst g0.
      destruct (IH g eq_refl) as (ws & rest & -> & Hws & Hg & Hf).
      exists (String c ws), rest. split; [reflexivity |].
      split; [simpl; rewrite Ec, Hws; reflexivity |].
      split; assumption.
    + apply space_then_group_none_lazy in Es.
      rewrite lazy_group_eq, (space_is_not_backquote c s Ec), Es in H.
      discriminate.
Qed.

(** What the search returns is what the first fenced block holds. *)
Lemma search_only_finds_first_block s : forall g,
  SQL_BLOCK_RE_search s = Some g -> first_fenced_block s g.
Proof.
  induction s as [| c s IH]; intros g H; rewrite search_eq in H.
  - vm_compute in H. discriminate.
  - destruct (match_here (String c s)) as [g0 |] eqn:Em.
    + inversion H; subst g0. unfold match_here in Em.
      destruct (starts_with_ci "```sql" (String c s)) eqn:Eo; [| discriminate].
      destruct (starts_with_ci_split _ _ Eo) as (opener & tail & Hs & Hl & Ho).
      rewrite Hs in Em. change 6%nat with (String.length "```sql") in Em.
      rewrite <- Hl, drop_app_length in Em.
      apply space_then_group_inv in Em as (ws & rest & -> & Hws & Hg & Hf).
      exists "", opener, ws, rest. rewrite Hs.
      split; [reflexivity |]. split; [intros i Hi; simpl in Hi; lia |].
      repeat split; assumption.
    + destruct (starts_with_ci "```sql" (String c s)) eqn:Eo.
      { rewrite (no_match_after_open_fence c s Eo Em) in H. discriminate. }
      destruct (IH g H) as (pre & opener & ws & rest & Hs & Hp & Hrest).
      exists (String c pre), opener, ws, rest.
      split; [rewrite Hs; reflexivity |].
      split; [| exact Hrest].
      intros [| i] Hi; [exact Eo |].
      change (Str.drop (S i) (String c s)) with (Str.drop i s).
      rewrite Hs. rewrite Hs in Hp. apply Hp. simpl in Hi. lia.
Qed.


Section ExtractClaim.

Context {W : Type} (ext : External W).
Variables (runs warmup timeout_s : Z) (thr : float).


End ExtractClaim.

(* ===================================================================== *)
(** ** Arguments a known tool cannot be called with *)
(* ===================================================================== *)

Section DispatchFaults.

Context {W : Type} (ext : External W).

Lemma tool_loop_single_call n ev (st : State W) call w :
  responses_create ext (messages st) (world st) = (Ok [call], w) ->
  is_function_call call = true ->
  tool_loop ext (S n) ev st
  = (events' <- handle_call ext ev call ;; tool_loop ext n events')
      {| messages := messages st ++ [VDict call];
         world := w;
         gateway_log := gateway_log st ++ [(messages st, Ok [call])] |}.
Proof.
  intros Hg Hf. simpl. unfold bind at 1. unfold llm_call at 1. rewrite Hg.
  unfold bind at 1. cbn [extend_messages map classify res_bind].
  rewrite Hf. cbn [res_bind fst snd app]. rewrite bind_lift.
  cbn [handle_calls]. unfold bind. cbn [messages world gateway_log].
  destruct (handle_call ext ev call _) as [[ev1 | e] st1]; reflexivity.
Qed.

Lemma table_exists_without_name (st : State W) :
  _dispatch ext (VStr "table_exists") (VDict []) st = (Raise TypeError, st).
Proof. reflexivity. Qed.

(** C4, at the failing input.  [table_exists] requested with the empty
    object as arguments, so without its required [name]: the dispatch raises
    [TypeError], and the loop ends with that exception; the request is in
    the transcript and no tool-result record follows it. *)
Theorem missing_argument_aborts_the_loop :
  (forall st : State W,
      _dispatch ext (VStr "table_exists") (VDict []) st = (Raise TypeError, st))
  /\ (forall n ev (st : State W) w,
         json_loads ext "{}" = Some (VDict []) ->
         responses_create ext (messages st) (world st)
         = (Ok [table_exists_call "{}"], w) ->
         tool_loop ext (S n) ev st
         = (Raise TypeError,
            {| messages := messages st ++ [VDict (table_exists_call "{}")];
               world := w;
               gateway_log :=
                 gateway_log st ++ [(messages st, Ok [table_exists_call "{}"])] |})).
Proof.
  split; [intros st; reflexivity |].
  intros n ev st w Hj Hg.
  rewrite (tool_loop_single_call _ _ _ _ _ Hg eq_refl).
  unfold bind at 1. unfold handle_call.
  cbn [dget assoc_get table_exists_call String.eqb Ascii.eqb Bool.eqb].
  unfold decode_arguments. rewrite Hj.
  unfold bind at 1. rewrite table_exists_without_name. reflexivity.
Qed.

(** C9, at the failing input.  Arguments that [json.loads] refuses are
    decoded as the empty mapping, and the tool is dispatched with it; for
    [table_exists], which requires [name], that dispatch raises [TypeError]
    and the loop ends with the exception, no tool-result record
    appended. *)
Theorem undecodable_arguments_abort_the_loop :
  forall s,
    json_loads ext s = None ->
    decode_arguments ext (VStr s) = VDict []
    /\ forall n ev (st : State W) w,
         responses_create ext (messages st) (world st)
         = (Ok [table_exists_call s], w) ->
         tool_loop ext (S n) ev st
         = (Raise TypeError,
            {| messages := messages st ++ [VDict (table_exists_call s)];
               world := w;
               gateway_log :=
                 gateway_log st ++ [(messages st, Ok [table_exists_call s])] |}).
Proof.
  intros s Hj. split; [unfold decode_arguments; now rewrite Hj |].
  intros n ev st w Hg.
  rewrite (tool_loop_single_call _ _ _ _ _ Hg eq_refl).
  unfold bind at 1. unfold handle_call.
  cbn [dget assoc_get table_exists_call String.eqb Ascii.eqb Bool.eqb].
  unfold decode_arguments. rewrite Hj.
  unfold bind at 1. rewrite table_exists_without_name. reflexivity.
Qed.

End DispatchFaults.

(* ===================================================================== *)
(** ** The statements on concrete runs *)
(* ===================================================================== *)

Local Open Scope list_scope.

(** A run of three steps at most: an unknown tool is requested and answered,
    then the model ends the dialogue. *)
Lemma every_tool_call_is_answered_witness :
  exists new,
    gateway_log
      (snd (run_tool_loop Script.ext {| max_tool_steps := 3 |}
              (Script.start [Ok [Script.unknown_call];
                             Ok [Script.reply "done"]] [])))
    = [] ++ new
    /\ chain Script.ext new
    /\ settled Script.ext new
         (messages
            (snd (run_tool_loop Script.ext {| max_tool_steps := 3 |}
                    (Script.start [Ok [Script.unknown_call];
                                   Ok [Script.reply "done"]] [])))).
Proof.
  destruct (every_tool_call_is_answered Script.ext {| max_tool_steps := 3 |}
              (Script.start [Ok [Script.unknown_call];
                             Ok [Script.reply "done"]] []))
    as (new & H1 & _ & H3 & H4).
  exists new. split; [exact H1 |]. split; [exact H3 |].
  eapply H4. vm_compute. reflexivity.
Defined.

(** C1, where the sentence of the specification fails.  A request that has
    a [call_id], the empty string, and an [id]: the record that answers it
    carries the [id], not the [call_id] of the request. *)
Lemma empty_call_id_is_answered_under_id :
  assoc_get Script.empty_id_call "call_id" = Some (VStr "")
  /\ exists output,
       messages
         (snd (run_tool_loop Script.ext {| max_tool_steps := 1 |}
                 (Script.start [Ok [Script.empty_id_call]] [])))
       = [VDict Script.empty_id_call;
          VDict [("type", VStr "function_call_output");
                 ("call_id", VStr "fc_1");
                 ("output", VStr output)]].
Proof. split; [reflexivity |]. eexists. vm_compute. reflexivity. Qed.

(** C3, where the sentence of the specification fails.  With a budget of
    one step, a model that ends the dialogue with the text of the sentinel
    makes the loop return what it returns with no budget at all: the caller
    cannot tell the two apart. *)
Lemma sentinel_is_ordinary_output :
  fst (run_tool_loop Script.ext {| max_tool_steps := 1 |}
         (Script.start [Ok [Script.reply sentinel]] []))
  = Ok (Some sentinel, [])
  /\ fst (run_tool_loop Script.ext {| max_tool_steps := 0 |}
            (Script.start [Ok [Script.reply sentinel]] []))
     = Ok (Some sentinel, [])
  /\ List.length
       (gateway_log
          (snd (run_tool_loop Script.ext {| max_tool_steps := 1 |}
                  (Script.start [Ok [Script.reply sentinel]] []))))
     = 1%nat
  /\ spoken [Script.reply sentinel] (Some sentinel).
Proof.
  split; [vm_compute; reflexivity |].
  split; [vm_compute; reflexivity |].
  split; [vm_compute; reflexivity |].
  eexists. eexists. split; [vm_compute; reflexivity |].
  split; [vm_compute; reflexivity |]. vm_compute. reflexivity.
Qed.

(** A budget of one step, spent on a tool call: the sentinel is returned. *)
Lemma run_tool_loop_stops_within_budget_witness :
  exists new,
    gateway_log
      (snd (run_tool_loop Script.ext {| max_tool_steps := 1 |}
              (Script.start [Ok [Script.unknown_call];
                             Ok [Script.reply "done"]] [])))
    = [] ++ new
    /\ (List.length new <= 1)%nat
    /\ exists ev,
         fst (run_tool_loop Script.ext {| max_tool_steps := 1 |}
                (Script.start [Ok [Script.unknown_call];
                               Ok [Script.reply "done"]] []))
         = Ok (Some sentinel, ev)
         /\ List.length ev = (2 * calls_in new)%nat
         /\ List.length new = 1%nat.
Proof.
  destruct (run_tool_loop_stops_within_budget Script.ext
              {| max_tool_steps := 1 |}
              (Script.start [Ok [Script.unknown_call];
                             Ok [Script.reply "done"]] []))
    as (new & H1 & H2 & H3).
  exists new. split; [exact H1 |]. split; [exact H2 |].
  eexists. split; [vm_compute; reflexivity |].
  edestruct H3 as (H4 & H5 & _); [vm_compute; reflexivity |].
  split; [exact H4 |]. apply H5.
  vm_compute in H1. subst new.
  repeat constructor. eexists. split; reflexivity.
Defined.

(** Dispatching the unregistered name [frobnicate]. *)
Lemma unknown_tool_is_reported_witness :
  _dispatch Script.ext (VStr "frobnicate") (VDict []) (Script.start [] [])
  = (Ok (VDict [("ok", VBool false);
                ("error", VStr ("Unknown tool: "
                                ++ py_str Script.ext (VStr "frobnicate")));
                ("name", VStr "frobnicate");
                ("args", VDict [])]),
     Script.start [] []).
Proof.
  apply (proj1 (unknown_tool_is_reported Script.ext)). reflexivity.
Defined.

(** [table_exists] requested with the empty object as arguments. *)
Lemma missing_argument_aborts_the_loop_witness :
  tool_loop Script.ext 3 [] (Script.start [Ok [table_exists_call "{}"]] [])
  = (Raise TypeError,
     {| messages := [VDict (table_exists_call "{}")];
        world := {| Script.llm_script := []; Script.ea_script := [] |};
        gateway_log := [([], Ok [table_exists_call "{}"])] |}).
Proof.
  apply (proj2 (missing_argument_aborts_the_loop Script.ext) 2%nat []
           (Script.start [Ok [table_exists_call "{}"]] [])); reflexivity.
Defined.

(** [table_exists] requested with arguments that do not decode. *)
Lemma undecodable_arguments_abort_the_loop_witness :
  decode_arguments Script.ext (VStr "{name: orders") = VDict []
  /\ tool_loop Script.ext 3 []
       (Script.start [Ok [table_exists_call "{name: orders"]] [])
     = (Raise TypeError,
        {| messages := [VDict (table_exists_call "{name: orders")];
           world := {| Script.llm_script := []; Script.ea_script := [] |};
           gateway_log := [([], Ok [table_exists_call "{name: orders"])] |}).
Proof.
  destruct (undecodable_arguments_abort_the_loop Script.ext "{name: orders"
              eq_refl) as [H1 H2].
  split; [exact H1 |].
  apply (H2 2%nat [] (Script.start [Ok [table_exists_call "{name: orders"]] [])).
  reflexivity.
Defined.

(** One warm-up and three runs of 9, 2 and 7 ms; and no run at all. *)
Lemma benchmark_median_needs_a_run_witness :
  (exists median a s,
      benchmark Script.ext (VStr "q") (VInt 3) (VInt 1) (VInt 60)
        (Script.start [] [Script.timed 5; Script.timed 9; Script.timed 2;
                          Script.timed 7])
      = (Ok (VDict [("ok", VBool true);
                    ("runs", VInt 3);
                    ("warmup", VInt 1);
                    ("elapsed_ms", VList [VFloat 9; VFloat 2; VFloat 7]);
                    ("median_ms", VFloat median);
                    ("analyze_sample", a);
                    ("total_time_s_explain_sample", s)]),
         Script.start [] [])
      /\ nth_error (sorted [9; 2; 7]%float) 1 = Some median)
  /\ benchmark Script.ext (VStr "q") (VInt 0) (VInt 1) (VInt 60)
       (Script.start [] [Script.timed 5])
     = (Raise IndexError, Script.start [] []).
Proof.
  destruct (benchmark_median_needs_a_run Script.ext) as [H1 H2]. split.
  - destruct (H1 (VStr "q") 3%Z 1%Z (VInt 60)
                (Script.start [] [Script.timed 5; Script.timed 9;
                                  Script.timed 2; Script.timed 7])
                [Script.sample 5]
                [Script.sample 9; Script.sample 2; Script.sample 7]
                {| Script.llm_script := [];
                   Script.ea_script := [Script.timed 9; Script.timed 2;
                                        Script.timed 7] |}
                {| Script.llm_script := []; Script.ea_script := [] |}
                ltac:(lia) eq_refl eq_refl)
      as (median & a & s & Hb & _ & _ & _ & Hn).
    exists median, a, s. split; [exact Hb | exact Hn].
  - apply (H2 (VStr "q") 0%Z 1%Z (VInt 60)
             (Script.start [] [Script.timed 5]) [Script.sample 5]);
      [lia | reflexivity].
Defined.

(** The scenario run: the rewrite is adopted and the reference does not
    exceed the baseline. *)
Lemma best_is_replaced_only_by_a_strictly_faster_candidate_witness :
  exists final st',
    optimize Script.ext 1 0 60 10 Script.baseline_sql 2 Script.scenario
    = (Ok final, st')
    /\ best_sql final = Script.rewritten_sql
    /\ exists base_bench st1 median0,
         benchmark Script.ext (VStr Script.baseline_sql) (VInt 1) (VInt 0)
           (VInt 60) Script.scenario
         = (Ok base_bench, st1)
         /\ getitem base_bench "median_ms" = Ok (VFloat median0)
         /\ PrimFloat.ltb median0 (base_ms final) = false.
Proof.
  eexists. eexists. split; [vm_compute; reflexivity |].
  split; [reflexivity |].
  edestruct (proj2 (proj2 (proj2
               (best_is_replaced_only_by_a_strictly_faster_candidate
                  Script.ext 1 0 60 10)))
               Script.baseline_sql 2%Z Script.scenario)
    as (base_bench & st1 & median0 & Hb & Hm & _ & Hl);
    [vm_compute; reflexivity |].
  exists base_bench, st1, median0. split; [exact Hb |].
  split; [exact Hm | exact Hl].
Defined.

(** The round of the scenario: 120 ms against 90 ms, threshold 10. *)
Lemma improvement_decides_early_stop_witness :
  round Script.ext 1 0 60 10 (Script.baseline 120)
    (Script.start [Ok [Script.reply Script.rewrite_text]] [Script.timed 90])
  = (Ok (adopted (Script.baseline 120) Script.rewritten_sql
           Script.rewrite_text
           (VDict [("ok", VBool true);
                   ("runs", VInt 1);
                   ("warmup", VInt 0);
                   ("elapsed_ms", VList [VFloat 90]);
                   ("median_ms", VFloat 90);
                   ("analyze_sample", VStr "plan");
                   ("total_time_s_explain_sample", VNone)])
           90,
         Break),
     snd (round Script.ext 1 0 60 10 (Script.baseline 120)
            (Script.start [Ok [Script.reply Script.rewrite_text]]
               [Script.timed 90])))
  /\ ((120 - 90) / 120 * 100 = 25)%float.
Proof.
  split; [| exact (proj1 (proj2 (improvement_decides_early_stop
                                   Script.ext 1 0 60 10)))].
  edestruct (proj1 (improvement_decides_early_stop Script.ext 1 0 60 10)
               (Script.baseline 120)
               (Script.start [Ok [Script.reply Script.rewrite_text]]
                  [Script.timed 90]))
    as [Hr _].
  - vm_compute. reflexivity.
  - vm_compute. reflexivity.
  - discriminate.
  - vm_compute. reflexivity.
  - reflexivity.
  - reflexivity.
  - reflexivity.
  - reflexivity.
  - rewrite Hr. vm_compute. reflexivity.
Defined.

(** A candidate that does not run, and a baseline that does not run. *)
Lemma only_a_failed_baseline_fails_the_run_witness :
  round Script.ext 1 0 60 10 (Script.baseline 120)
    (Script.start [Ok [Script.reply Script.rewrite_text]] [inl "Binder Error"])
  = (Ok (Script.baseline 120, Continue),
     snd (round Script.ext 1 0 60 10 (Script.baseline 120)
            (Script.start [Ok [Script.reply Script.rewrite_text]]
               [inl "Binder Error"])))
  /\ fst (optimize Script.ext 1 0 60 10 Script.baseline_sql 2
            Script.broken_baseline)
     = Raise (Exit 1).
Proof.
  destruct (only_a_failed_baseline_fails_the_run Script.ext 1 0 60 10)
    as (H1 & H2 & _).
  split.
  - edestruct (H1 (Script.baseline 120)
                 (Script.start [Ok [Script.reply Script.rewrite_text]]
                    [inl "Binder Error"]))
      as [Hr _].
    + vm_compute. reflexivity.
    + vm_compute. reflexivity.
    + discriminate.
    + vm_compute. reflexivity.
    + reflexivity.
    + reflexivity.
    + rewrite Hr. reflexivity.
  - edestruct (H2 Script.baseline_sql 2%Z Script.broken_baseline) as [Ho _].
    + vm_compute. reflexivity.
    + reflexivity.
    + reflexivity.
    + rewrite Ho. reflexivity.
Defined.


(* ===================================================================== *)
(** ** Further properties: clamp *)
(* ===================================================================== *)

(** [clamp] with bounds in order returns a value between them, leaves a
    value that is already between them as it is, and so is idempotent. *)
Theorem clamp_within_bounds (n lo hi : Z) :
  (lo <= hi)%Z ->
  (lo <= clamp n lo hi <= hi)%Z
  /\ ((lo <= n <= hi)%Z -> clamp n lo hi = n)
  /\ clamp (clamp n lo hi) lo hi = clamp n lo hi.
Proof. unfold clamp. lia. Qed.

Lemma clamp_within_bounds_witness :
  (0 <= clamp 250 0 100 <= 100)%Z
  /\ ((0 <= 250 <= 100)%Z -> clamp 250 0 100 = 250%Z)
  /\ clamp (clamp 250 0 100) 0 100 = clamp 250 0 100.
Proof. apply (clamp_within_bounds 250 0 100). lia. Defined.

(** [clamp] with the bounds inverted returns the lower bound, whatever the
    value: the result then exceeds the upper bound. *)
Theorem clamp_inverted_bounds (n lo hi : Z) :
  (hi < lo)%Z -> clamp n lo hi = lo /\ (hi < clamp n lo hi)%Z.
Proof. unfold clamp. lia. Qed.

Lemma clamp_inverted_bounds_witness :
  clamp 5 10 0 = 10%Z /\ (0 < clamp 5 10 0)%Z.
Proof. apply (clamp_inverted_bounds 5 10 0). lia. Defined.

(* ===================================================================== *)
(** ** Further properties: benchmark *)
(* ===================================================================== *)

Section BenchmarkMore.

Context {W : Type} (ext : External W).

Lemma warmup_loop_timeout n sql t1 t2 (st : State W) :
  warmup_loop ext n sql t1 st = warmup_loop ext n sql t2 st.
Proof.
  revert st. induction n as [| n IH]; intros st; [reflexivity |].
  simpl. unfold bind.
  change (explain_analyze ext sql t1 st) with (explain_analyze ext sql t2 st).
  destruct (explain_analyze ext sql t2 st) as [[r | e] st1]; [| reflexivity].
  unfold lift. destruct (get r "ok" VNone) as [ok | e]; [| reflexivity].
  destruct (negb (truthy ok)); [reflexivity | apply IH].
Qed.

Lemma measured_loop_timeout n sql t1 t2 : forall acc (st : State W),
  measured_loop ext n sql t1 acc st = measured_loop ext n sql t2 acc st.
Proof.
  induction n as [| n IH]; intros acc st; [reflexivity |].
  simpl. unfold bind.
  change (explain_analyze ext sql t1 st) with (explain_analyze ext sql t2 st).
  destruct (explain_analyze ext sql t2 st) as [[r | e] st1]; [| reflexivity].
  unfold lift. destruct (get r "ok" VNone) as [ok | e]; [| reflexivity].
  destruct (negb (truthy ok)); [reflexivity |].
  destruct (getitem r "elapsed_ms_client") as [x | e]; [| reflexivity].
  destruct (to_float x) as [f | e]; [| reflexivity].
  destruct (get r "analyze" VNone) as [a | e]; [| reflexivity].
  destruct (get r "total_time_s_explain" VNone) as [s | e]; [| reflexivity].
  apply IH.
Qed.

(** [timeout_s] has no effect on [benchmark]: whatever value is passed, the
    same executions are made and the same result is returned. *)
Theorem benchmark_ignores_timeout sql runs warmup t1 t2 (st : State W) :
  benchmark ext sql runs warmup t1 st = benchmark ext sql runs warmup t2 st.
Proof.
  unfold benchmark. rewrite !bind_lift.
  destruct (range_len warmup) as [nw | e]; [| reflexivity].
  unfold bind at 1. unfold bind at 3.
  rewrite (warmup_loop_timeout nw sql t1 t2).
  destruct (warmup_loop ext nw sql t2 st) as [[[r |] | e] st1];
    try reflexivity.
  rewrite !bind_lift.
  destruct (range_len runs) as [nr | e]; [| reflexivity].
  unfold bind. rewrite (measured_loop_timeout nr sql t1 t2). reflexivity.
Qed.

End BenchmarkMore.

Section BenchmarkRecords.

Context {W : Type} (ext : External W).

Lemma explain_analyze_inv sql t (st : State W) r st' :
  explain_analyze ext sql t st = (r, st') ->
  exists d, r = Ok (VDict d)
            /\ (assoc_get d "ok" = Some (VBool false)
                \/ exists p,
                     d = [("ok", VBool true);
                          ("elapsed_ms_client", VFloat (ea_elapsed p));
                          ("total_time_s_explain", ea_total_s p);
                          ("analyze", VStr (ea_analyze p))]).
Proof.
  unfold explain_analyze, on_world.
  destruct (con_explain_analyze ext sql (world st)) as [[msg | p] w];
    intros H; inversion H; subst; eexists; (split; [reflexivity |]).
  - left. reflexivity.
  - right. exists p. reflexivity.
Qed.

Lemma warmup_loop_some n sql t : forall (st : State W) r st',
  warmup_loop ext n sql t st = (Ok (Some r), st') ->
  get r "ok" VNone = Ok (VBool false).
Proof.
  induction n as [| n IH]; intros st r st' H; simpl in H; [discriminate |].
  apply bind_inv in H as [(x & st1 & _ & H) | (e & _ & Hr)]; [| discriminate].
  rewrite bind_lift in H.
  destruct (get x "ok" VNone) as [ok | e]; [| discriminate].
  destruct (negb (truthy ok)); [| eapply IH; exact H].
  rewrite bind_lift in H.
  destruct (get x "error" VNone) as [err | e]; [| discriminate].
  inversion H; subst. reflexivity.
Qed.

Lemma measured_loop_inv n sql t : forall acc (st : State W) m st',
  measured_loop ext n sql t acc st = (Ok m, st') ->
  match m with
  | inl r => get r "ok" VNone = Ok (VBool false)
  | inr acc' =>
      exists more,
        times acc' = times acc ++ more /\ List.length more = n
  end.
Proof.
  induction n as [| n IH]; intros acc st m st' H; simpl in H.
  - inversion H; subst. exists []. now rewrite app_nil_r.
  - apply bind_inv in H as [(x & st1 & _ & H) | (e & _ & Hr)];
      [| discriminate].
    rewrite bind_lift in H.
    destruct (get x "ok" VNone) as [ok | e]; [| discriminate].
    destruct (negb (truthy ok)).
    + rewrite bind_lift in H.
      destruct (get x "error" VNone) as [err | e]; [| discriminate].
      inversion H; subst. reflexivity.
    + rewrite bind_lift in H.
      destruct (getitem x "elapsed_ms_client") as [y | e]; [| discriminate].
      rewrite bind_lift in H.
      destruct (to_float y) as [f | e]; [| discriminate].
      rewrite bind_lift in H.
      destruct (get x "analyze" VNone) as [a | e]; [| discriminate].
      rewrite bind_lift in H.
      destruct (get x "total_time_s_explain" VNone) as [s | e];
        [| discriminate].
      apply IH in H. destruct m as [r | acc']; [exact H |].
      destruct H as (more & Ht & Hl). simpl in Ht.
      exists (f :: more). split; [| simpl; now rewrite Hl].
      rewrite Ht, <- app_assoc. reflexivity.
Qed.

(** A record that [benchmark] returns with [ok] true holds as many samples
    as there were runs, at least one, and its [median_ms] is one of them:
    an element of [elapsed_ms], never a mean of two. *)
Theorem benchmark_median_is_a_sample sql runs warmup t (st : State W) r st' v :
  benchmark ext sql runs warmup t st = (Ok r, st') ->
  get r "ok" VNone = Ok v -> truthy v = true ->
  exists samples median n,
    getitem r "elapsed_ms" = Ok (VList (map VFloat samples))
    /\ getitem r "median_ms" = Ok (VFloat median)
    /\ In median samples
    /\ range_len runs = Ok n
    /\ List.length samples = n
    /\ (0 < n)%nat.
Proof.
  unfold benchmark. intros H Hg Hv.
  rewrite bind_lift in H.
  destruct (range_len warmup) as [nw | e]; [| discriminate].
  apply bind_inv in H as [(early & st1 & Hw & H) | (e & _ & Hr)];
    [| discriminate].
  destruct early as [r0 |].
  - inversion H; subst. apply warmup_loop_some in Hw.
    rewrite Hw in Hg. inversion Hg; subst. discriminate.
  - rewrite bind_lift in H.
    destruct (range_len runs) as [nr | e]; [| discriminate].
    apply bind_inv in H as [(m & st2 & Hm & H) | (e & _ & Hr)];
      [| discriminate].
    apply measured_loop_inv in Hm. destruct m as [r0 | acc].
    + inversion H; subst. rewrite Hm in Hg. inversion Hg; subst.
      discriminate.
    + destruct Hm as (more & Ht & Hl). simpl in Ht.
      cbv zeta in H.
      destruct (nth_error (sorted (times acc))
                  (List.length (sorted (times acc)) / 2)) as [median |] eqn:En;
        [| discriminate].
      inversion H as [[Hr Hs]].
      exists (times acc), median, nr.
      split; [reflexivity |]. split; [reflexivity |].
      assert (Hin : In median (times acc)).
      { apply nth_error_In in En.
        eapply Permutation_in; [apply sorted_permutation | exact En]. }
      split; [exact Hin |]. split; [reflexivity |].
      split; [rewrite Ht; exact Hl |].
      rewrite Ht in Hin. rewrite <- Hl.
      destruct more; [contradiction | simpl; lia].
Qed.

(** The first execution that fails ends [benchmark]: the record returned
    has [ok] false and carries the text of that failure, and the world is
    the one that execution left, so no execution follows it. *)
Theorem benchmark_stops_at_the_first_failure sql runs warmup t
    (st : State W) k ps w1 msg w2 :
  (k < Z.to_nat warmup + Z.to_nat runs)%nat ->
  executions ext k sql (world st) = (map inr ps, w1) ->
  con_explain_analyze ext sql w1 = (inl msg, w2) ->
  exists r,
    benchmark ext sql (VInt runs) (VInt warmup) t st = (Ok r, set_world st w2)
    /\ get r "ok" VNone = Ok (VBool false)
    /\ get r "error" VNone = Ok (VStr ("EXPLAIN ANALYZE failed: " ++ msg))
    /\ getitem r "median_ms" = Raise KeyError.
Proof.
  intros Hk He Hf. eexists. split.
  - eapply benchmark_reports_a_failed_execution; eassumption.
  - repeat split.
Qed.

End BenchmarkRecords.

(** Two runs of 9 and 2 ms: the median is 9, the larger sample. *)
Lemma benchmark_median_is_a_sample_witness :
  exists samples median n,
    getitem
      (VDict [("ok", VBool true); ("runs", VInt 2); ("warmup", VInt 0);
              ("elapsed_ms", VList [VFloat 9; VFloat 2]);
              ("median_ms", VFloat 9); ("analyze_sample", VStr "plan");
              ("total_time_s_explain_sample", VNone)]) "elapsed_ms"
    = Ok (VList (map VFloat samples))
    /\ getitem
         (VDict [("ok", VBool true); ("runs", VInt 2); ("warmup", VInt 0);
                 ("elapsed_ms", VList [VFloat 9; VFloat 2]);
                 ("median_ms", VFloat 9); ("analyze_sample", VStr "plan");
                 ("total_time_s_explain_sample", VNone)]) "median_ms"
       = Ok (VFloat median)
    /\ In median samples
    /\ range_len (VInt 2) = Ok n
    /\ List.length samples = n
    /\ (0 < n)%nat.
Proof.
  eapply (benchmark_median_is_a_sample Script.ext (VStr "q") (VInt 2) (VInt 0)
            (VInt 60) (Script.start [] [Script.timed 9; Script.timed 2])).
  - vm_compute. reflexivity.
  - reflexivity.
  - reflexivity.
Defined.

(** One warm-up that succeeds, then a first run that fails. *)
Lemma benchmark_stops_at_the_first_failure_witness :
  exists r,
    benchmark Script.ext (VStr "q") (VInt 3) (VInt 1) (VInt 60)
      (Script.start [] [Script.timed 5; inl "Binder Error"; Script.timed 7])
    = (Ok r, Script.start [] [Script.timed 7])
    /\ get r "ok" VNone = Ok (VBool false)
    /\ get r "error" VNone
       = Ok (VStr "EXPLAIN ANALYZE failed: Binder Error")
    /\ getitem r "median_ms" = Raise KeyError.
Proof.
  apply (benchmark_stops_at_the_first_failure Script.ext (VStr "q") 3 1
           (VInt 60)
           (Script.start [] [Script.timed 5; inl "Binder Error"; Script.timed 7])
           1%nat [Script.sample 5]
           {| Script.llm_script := [];
              Script.ea_script := [inl "Binder Error"; Script.timed 7] |}
           "Binder Error"%string
           {| Script.llm_script := []; Script.ea_script := [Script.timed 7] |});
    [simpl; lia | reflexivity | reflexivity].
Defined.

(* ===================================================================== *)
(** ** Further properties: strip *)
(* ===================================================================== *)

Lemma rstrip_cons c s :
  Str.rstrip (String c s)
  = match Str.rstrip s with
    | EmptyString =>
        if Str.is_space c then EmptyString else String c EmptyString
    | r => String c r
    end.
Proof. reflexivity. Qed.

Lemma rstrip_idempotent s : Str.rstrip (Str.rstrip s) = Str.rstrip s.
Proof.
  induction s as [| c s IH]; [reflexivity |].
  rewrite rstrip_cons. destruct (Str.rstrip s) as [| d r] eqn:E.
  - destruct (Str.is_space c) eqn:Ec; [reflexivity |].
    rewrite rstrip_cons. simpl Str.rstrip. now rewrite Ec.
  - rewrite rstrip_cons, IH. reflexivity.
Qed.

Lemma rstrip_keeps_head c s :
  Str.is_space c = false -> exists r, Str.rstrip (String c s) = String c r.
Proof.
  intros Ec. rewrite rstrip_cons.
  destruct (Str.rstrip s); [rewrite Ec |]; eexists; reflexivity.
Qed.

Lemma lstrip_head s :
  Str.lstrip s = EmptyString
  \/ exists c r, Str.lstrip s = String c r /\ Str.is_space c = false.
Proof.
  induction s as [| c s IH]; [now left |].
  simpl. destruct (Str.is_space c) eqn:Ec; [exact IH |].
  right. exists c, s. split; [reflexivity | exact Ec].
Qed.

(** Stripping a stripped string changes nothing. *)
Lemma strip_idempotent s : Str.strip (Str.strip s) = Str.strip s.
Proof.
  unfold Str.strip.
  destruct (lstrip_head s) as [-> | (c & r & -> & Ec)]; [reflexivity |].
  destruct (rstrip_keeps_head c r Ec) as (r' & E).
  rewrite E. simpl Str.lstrip. rewrite Ec, <- E. apply rstrip_idempotent.
Qed.

(* ===================================================================== *)
(** ** Further properties: the dialogue loop *)
(* ===================================================================== *)

Section DialogueMore.

Context {W : Type} (ext : External W).

Lemma handle_call_grows ev call (st : State W) r st' :
  handle_call ext ev call st = (r, st') ->
  (exists tail, messages st' = messages st ++ tail)
  /\ gateway_log st' = gateway_log st
  /\ forall ev', r = Ok ev' -> exists c, ev' = ev ++ event_pair c.
Proof.
  unfold handle_call. intros H.
  apply bind_inv in H as [(result & st1 & Hd & Hk) | (e & Hd & ->)];
    match type of Hd with
    | _dispatch _ ?n ?a ?s = _ =>
        pose proof (frames_dispatch ext n a s) as [Hm Hl]
    end; rewrite Hd in Hm, Hl; simpl in Hm, Hl.
  - unfold bind, append_message, ret in Hk. inversion Hk; subst; clear Hk.
    simpl. split; [rewrite Hm; eexists; reflexivity |].
    split; [exact Hl |]. intros ev' Hev. inversion Hev; subst.
    eexists (_, _, _). reflexivity.
  - split; [exists []; now rewrite app_nil_r |].
    split; [exact Hl | intros ev' Hev; discriminate].
Qed.

Lemma handle_calls_grows calls : forall ev (st : State W) r st',
  handle_calls ext ev calls st = (r, st') ->
  (exists tail, messages st' = messages st ++ tail)
  /\ gateway_log st' = gateway_log st
  /\ forall ev', r = Ok ev' -> exists cs, ev' = ev ++ flat_map event_pair cs.
Proof.
  induction calls as [| call rest IH]; intros ev st r st' H; simpl in H.
  - inversion H; subst. split; [exists []; now rewrite app_nil_r |].
    split; [reflexivity |]. intros ev' Hev. inversion Hev; subst.
    exists []. simpl. now rewrite app_nil_r.
  - apply bind_inv in H as [(ev1 & st1 & Hc & Hk) | (e & Hc & ->)];
      apply handle_call_grows in Hc as ((t1 & Ht1) & Hl1 & He1).
    + apply IH in Hk as ((t2 & Ht2) & Hl2 & He2).
      split; [exists (t1 ++ t2); rewrite Ht2, Ht1; now rewrite app_assoc |].
      split; [congruence |]. intros ev' Hev.
      destruct (He1 ev1 eq_refl) as (c & ->).
      destruct (He2 ev' Hev) as (cs & ->).
      exists (c :: cs). simpl. now rewrite <- app_assoc.
    + split; [exists t1; exact Ht1 |].
      split; [exact Hl1 | intros ev' Hev; discriminate].
Qed.

(** A second reading of every execution of the loop: the transcript only
    grows; a gateway call that raised ends the loop with the same exception
    and the transcript as it was sent; the events returned are the events
    given followed by pairs of a call and its result; a text returned is not
    empty and has no white space around it. *)
Lemma tool_loop_grows n : forall ev (st : State W) r st',
  tool_loop ext n ev st = (r, st') ->
  (exists tail, messages st' = messages st ++ tail)
  /\ (exists new,
        gateway_log st' = gateway_log st ++ new
        /\ forall t e, In (t, Raise e) new ->
                       r = Raise e /\ messages st' = t)
  /\ forall text ev', r = Ok (text, ev') ->
       (exists cs, ev' = ev ++ flat_map event_pair cs)
       /\ forall s, text = Some s -> s <> EmptyString /\ Str.strip s = s.
Proof.
  induction n as [| n IH]; intros ev st r st' H.
  - simpl in H. inversion H; subst.
    split; [exists []; now rewrite app_nil_r |].
    split; [exists []; rewrite app_nil_r; split;
            [reflexivity | intros t e []] |].
    intros text ev' Hr. inversion Hr; subst.
    split; [exists []; simpl; now rewrite app_nil_r |].
    intros s Hs. inversion Hs; subst. split; [discriminate | reflexivity].
  - simpl in H. unfold bind at 1 in H. unfold llm_call in H at 1.
    destruct (responses_create ext (messages st) (world st)) as [r0 w] eqn:Eg.
    destruct r0 as [items | e].
    2:{ inversion H; subst. simpl.
        split; [exists []; now rewrite app_nil_r |].
        split; [| intros ? ? Hr; discriminate].
        eexists. split; [reflexivity |].
        intros t e' [Hin | []]. inversion Hin; subst. split; reflexivity. }
    unfold bind at 1 in H. simpl in H.
    assert (Hstop : forall (res : Res (option string * list PyVal)) tail,
               (forall text ev', res = Ok (text, ev') ->
                  ev' = ev
                  /\ forall s, text = Some s ->
                               s <> EmptyString /\ Str.strip s = s) ->
               (exists tail0,
                   messages st ++ map VDict items ++ tail
                   = messages st ++ tail0)
               /\ (exists new,
                      gateway_log st ++ [(messages st, Ok items)]
                      = gateway_log st ++ new
                      /\ forall t e0, In (t, Raise e0) new ->
                           res = Raise e0
                           /\ messages st ++ map VDict items ++ tail = t)
               /\ forall text ev', res = Ok (text, ev') ->
                    (exists cs, ev' = ev ++ flat_map event_pair cs)
                    /\ forall s, text = Some s ->
                                 s <> EmptyString /\ Str.strip s = s).
    { intros res tail Hres.
      split; [eexists; reflexivity |].
      split; [eexists; split; [reflexivity |];
              intros t e0 [Hin | []]; discriminate Hin |].
      intros text ev' Hr. destruct (Hres text ev' Hr) as [-> Hs].
      split; [exists []; simpl; now rewrite app_nil_r | exact Hs]. }
    rewrite bind_lift in H.
    destruct (classify items) as [[calls chunks] | e] eqn:Ec.
    2:{ inversion H; subst. simpl.
        specialize (Hstop (Raise e) []). rewrite !app_nil_r in Hstop.
        apply Hstop. intros ? ? Hr. discriminate. }
    destruct calls as [| c calls'].
    + rewrite bind_lift in H.
      destruct (nonblank chunks) as [texts | e].
      2:{ inversion H; subst. simpl.
          specialize (Hstop (Raise e) []). rewrite !app_nil_r in Hstop.
          apply Hstop. intros ? ? Hr. discriminate. }
      destruct (String.eqb_spec (Str.strip (Str.join nl texts)) "")
        as [He | Hne].
      * inversion H; subst. simpl.
        specialize (Hstop (Ok (None, ev)) []). rewrite !app_nil_r in Hstop.
        apply Hstop. intros text ev' Hr. inversion Hr; subst.
        split; [reflexivity | intros s Hs; discriminate].
      * unfold bind, append_message, ret in H. simpl in H.
        inversion H; subst. simpl. rewrite <- app_assoc.
        apply Hstop. intros text ev' Hr. inversion Hr; subst.
        split; [reflexivity |]. intros s Hs. inversion Hs; subst.
        split; [exact Hne | apply strip_idempotent].
    + apply bind_inv in H as [(ev1 & st3 & Hh & Hk) | (e & Hh & ->)];
        apply handle_calls_grows in Hh as ((t1 & Ht1) & Hl1 & He1);
        simpl in Ht1, Hl1.
      * apply IH in Hk as ((t2 & Ht2) & (new & Hl2 & Hf) & Hok).
        split; [exists (map VDict items ++ t1 ++ t2);
                rewrite Ht2, Ht1, <- !app_assoc; reflexivity |].
        split.
        -- exists ((messages st, Ok items) :: new). split.
           ++ rewrite Hl2, Hl1, <- app_assoc. reflexivity.
           ++ intros t e [Hin | Hin]; [discriminate Hin | now apply Hf].
        -- intros text ev' Hr. destruct (Hok text ev' Hr) as ((cs2 & ->) & Hs).
           destruct (He1 ev1 eq_refl) as (cs1 & ->).
           split; [| exact Hs].
           exists (cs1 ++ cs2). now rewrite flat_map_app, app_assoc.
      * split; [exists (map VDict items ++ t1); rewrite Ht1, <- app_assoc;
                reflexivity |].
        split; [| intros ? ? Hr; discriminate].
        exists [(messages st, Ok items)]. split; [exact Hl1 |].
        intros t e0 [Hin | []]. discriminate Hin.
Qed.

End DialogueMore.

Section DialogueMoreClaims.

Context {W : Type} (ext : External W).

(** [run_tool_loop] only appends to the transcript: however it ends, also
    with an exception, the transcript it leaves begins with the transcript it
    was started on. *)
Theorem run_tool_loop_only_appends (cfg : AgentConfig) (st : State W) :
  exists tail,
    messages (snd (run_tool_loop ext cfg st)) = messages st ++ tail.
Proof.
  unfold run_tool_loop.
  destruct (tool_loop ext (Z.to_nat (max_tool_steps cfg)) [] st)
    as [r st'] eqn:E.
  apply tool_loop_grows in E as (Ht & _). exact Ht.
Qed.

(** A Model Gateway call that raises ends [run_tool_loop] with that same
    exception, and the transcript is left as it was sent with that call;
    so a loop that returns has had an answer to every call it made. *)
Theorem gateway_fault_ends_the_loop (cfg : AgentConfig) (st : State W) :
  exists new,
    gateway_log (snd (run_tool_loop ext cfg st)) = gateway_log st ++ new
    /\ (forall t e, In (t, Raise e) new ->
          fst (run_tool_loop ext cfg st) = Raise e
          /\ messages (snd (run_tool_loop ext cfg st)) = t)
    /\ (forall v, fst (run_tool_loop ext cfg st) = Ok v ->
          Forall (fun entry => exists items, snd entry = Ok items) new).
Proof.
  unfold run_tool_loop.
  destruct (tool_loop ext (Z.to_nat (max_tool_steps cfg)) [] st)
    as [r st'] eqn:E.
  apply tool_loop_grows in E as (_ & (new & Hl & Hf) & _).
  exists new. simpl. split; [exact Hl |]. split; [exact Hf |].
  intros v Hv. apply Forall_forall. intros [t [items | e]] Hin.
  - exists items. reflexivity.
  - destruct (Hf t e Hin) as [Hr _]. rewrite Hv in Hr. discriminate.
Qed.

(** A text that [run_tool_loop] returns is never the empty string and has
    no white space at either end; "no text" is [None]. *)
Theorem returned_text_is_stripped_and_not_empty
    (cfg : AgentConfig) (st : State W) s ev :
  fst (run_tool_loop ext cfg st) = Ok (Some s, ev) ->
  s <> EmptyString /\ Str.strip s = s.
Proof.
  unfold run_tool_loop.
  destruct (tool_loop ext (Z.to_nat (max_tool_steps cfg)) [] st)
    as [r st'] eqn:E.
  simpl. intros ->.
  apply tool_loop_grows in E as (_ & _ & Hok).
  destruct (Hok (Some s) ev eq_refl) as [_ Hs]. now apply Hs.
Qed.

Lemma event_pairs_length cs :
  List.length (flat_map event_pair cs) = (2 * List.length cs)%nat.
Proof.
  induction cs as [| [[n a] r] cs IH]; simpl; [reflexivity |].
  rewrite IH. lia.
Qed.

(** The event log that [run_tool_loop] returns is a sequence of pairs, a
    [tool_call] event followed by the [tool_result] event of the same tool
    name, one pair for each tool call requested in the responses. *)
Theorem events_are_call_result_pairs
    (cfg : AgentConfig) (st : State W) text ev :
  fst (run_tool_loop ext cfg st) = Ok (text, ev) ->
  exists cs new,
    ev = flat_map event_pair cs
    /\ gateway_log (snd (run_tool_loop ext cfg st)) = gateway_log st ++ new
    /\ List.length cs = calls_in new.
Proof.
  unfold run_tool_loop.
  destruct (tool_loop ext (Z.to_nat (max_tool_steps cfg)) [] st)
    as [r st'] eqn:E.
  simpl. intros ->.
  pose proof (tool_loop_grows ext _ _ _ _ _ E) as (_ & _ & Hok).
  destruct (Hok text ev eq_refl) as [(cs & Hev) _]. simpl in Hev.
  apply tool_loop_inv in E as (new & Hl & _ & _ & _ & Hn).
  destruct (Hn text ev eq_refl) as (Hlen & _).
  exists cs, new. split; [exact Hev |]. split; [exact Hl |].
  rewrite Hev, event_pairs_length in Hlen. simpl in Hlen. lia.
Qed.

End DialogueMoreClaims.

(** A second gateway call that finds the backend unreachable. *)
Lemma gateway_fault_ends_the_loop_witness :
  fst (run_tool_loop Script.ext {| max_tool_steps := 3 |}
         (Script.start [Ok [Script.unknown_call]] []))
  = Raise (ExternalError "backend unreachable")
  /\ exists new,
       gateway_log
         (snd (run_tool_loop Script.ext {| max_tool_steps := 3 |}
                 (Script.start [Ok [Script.unknown_call]] [])))
       = [] ++ new.
Proof.
  destruct (gateway_fault_ends_the_loop Script.ext {| max_tool_steps := 3 |}
              (Script.start [Ok [Script.unknown_call]] []))
    as (new & Hl & Hf & _).
  split; [| exists new; exact Hl].
  vm_compute in Hl. subst new.
  eapply Hf. right. left. reflexivity.
Defined.

(** A terminal turn whose text has white space around it. *)
Lemma returned_text_is_stripped_and_not_empty_witness :
  "done"%string <> EmptyString /\ Str.strip "done" = "done"%string.
Proof.
  apply (returned_text_is_stripped_and_not_empty Script.ext
           {| max_tool_steps := 3 |}
           (Script.start [Ok [Script.reply "  done  "]] []) "done"%string []).
  vm_compute. reflexivity.
Defined.

(** One unknown tool call, then the end of the dialogue. *)
Lemma events_are_call_result_pairs_witness :
  exists cs new,
    [tool_call_event (VStr "frobnicate") (VDict []);
     tool_result_event (VStr "frobnicate")
       (VDict [("ok", VBool false);
               ("error", VStr "Unknown tool: frobnicate");
               ("name", VStr "frobnicate");
               ("args", VDict [])])]
    = flat_map event_pair cs
    /\ gateway_log
         (snd (run_tool_loop Script.ext {| max_tool_steps := 3 |}
                 (Script.start [Ok [Script.unknown_call];
                                Ok [Script.reply "done"]] [])))
       = [] ++ new
    /\ List.length cs = calls_in new.
Proof.
  apply (events_are_call_result_pairs Script.ext {| max_tool_steps := 3 |}
           (Script.start [Ok [Script.unknown_call];
                          Ok [Script.reply "done"]] [])
           (Some "done"%string)).
  vm_compute. reflexivity.
Defined.

(* ===================================================================== *)
(** ** Further properties: the optimization loop *)
(* ===================================================================== *)

Section OptimizeMore.

Context {W : Type} (ext : External W).
Variables (runs warmup timeout_s : Z) (thr : float).

(** What a computation of the run adds: something to the transcript, and at
    most [k] gateway calls. *)
Local Abbreviation grows k st st' :=
  ((exists tail, messages st' = messages st ++ tail)
   /\ exists new,
        gateway_log st' = gateway_log st ++ new
        /\ (List.length new <= k)%nat).

Lemma grows_refl (st : State W) : grows 0%nat st st.
Proof.
  split; [exists []; now rewrite app_nil_r |].
  exists []. rewrite app_nil_r. split; [reflexivity | simpl; lia].
Qed.

Lemma grows_trans j k (a b c : State W) :
  grows j a b -> grows k b c -> grows (j + k)%nat a c.
Proof.
  intros ((t1 & Ht1) & n1 & Hl1 & Hn1) ((t2 & Ht2) & n2 & Hl2 & Hn2).
  split; [exists (t1 ++ t2); rewrite Ht2, Ht1; now rewrite app_assoc |].
  exists (n1 ++ n2). split; [rewrite Hl2, Hl1; now rewrite app_assoc |].
  rewrite length_app. lia.
Qed.

Lemma grows_le j k (a b : State W) :
  (j <= k)%nat -> grows j a b -> grows k a b.
Proof.
  intros Hjk (Ht & new & Hl & Hn). split; [exact Ht |].
  exists new. split; [exact Hl | lia].
Qed.

Lemma grows_frame (a b : State W) : same_agent a b -> grows 0%nat a b.
Proof.
  intros [Hm Hl]. rewrite <- Hm, <- Hl. apply grows_refl.
Qed.

Lemma optimize_once_grows sql (st : State W) r st' :
  optimize_once ext agent_cfg sql runs warmup timeout_s false st = (r, st') ->
  grows 35%nat st st'.
Proof.
  unfold optimize_once, run_tool_loop.
  unfold bind at 1. unfold append_message at 1.
  unfold bind at 1. unfold append_message at 1. intros H.
  pose proof (tool_loop_grows ext _ _ _ _ _ H) as ((t & Ht) & _ & _).
  apply tool_loop_inv in H as (new & Hl & Hn & _).
  simpl in Ht, Hl, Hn. split.
  - rewrite Ht, <- !app_assoc. eexists. reflexivity.
  - exists new. split; [exact Hl |].
    change (Z.to_nat 35) with 35%nat in Hn. exact Hn.
Qed.

Lemma round_grows b (st : State W) r st' :
  round ext runs warmup timeout_s thr b st = (r, st') -> grows 35%nat st st'.
Proof.
  unfold round. intros H.
  apply bind_inv in H as [(out & st1 & Hd & Hk) | (e & Hd & _)];
    apply optimize_once_grows in Hd; [| exact Hd].
  cbv zeta in Hk.
  destruct (_extract_sql_from_model (final_text_of out)) as [cand |];
    [| inversion Hk; subst; exact Hd].
  destruct (String.eqb cand ""); [inversion Hk; subst; exact Hd |].
  assert (Hb : forall rb sb,
             benchmark ext (VStr cand) (VInt runs) (VInt warmup)
               (VInt timeout_s) st1 = (rb, sb) -> grows 35%nat st sb).
  { intros rb sb Eb.
    pose proof (frames_benchmark ext (VStr cand) (VInt runs) (VInt warmup)
                  (VInt timeout_s) st1) as Hf.
    rewrite Eb in Hf. simpl in Hf.
    apply (grows_trans 35 0 st st1 sb Hd (grows_frame _ _ Hf)). }
  apply bind_inv in Hk as [(bench & st2 & Eb & Hj) | (e & Eb & _)].
  - unfold lift in Hj. inversion Hj; subst. eapply Hb. exact Eb.
  - eapply Hb. exact Eb.
Qed.

Lemma rounds_grows n : forall b (st : State W) r st',
  rounds ext runs warmup timeout_s thr n b st = (r, st') ->
  grows (n * 35)%nat st st'.
Proof.
  induction n as [| n IH]; intros b st r st' H.
  - inversion H; subst. apply grows_refl.
  - rewrite rounds_step in H.
    destruct (round ext runs warmup timeout_s thr b st)
      as [[[b1 flow] | e] st1] eqn:Er; apply round_grows in Er.
    + destruct flow.
      * apply IH in H. apply (grows_trans 35 (n * 35) _ _ _ Er H).
      * inversion H; subst.
        apply (grows_le 35 (S n * 35) _ _ ltac:(simpl; lia) Er).
    + inversion H; subst.
      apply (grows_le 35 (S n * 35) _ _ ltac:(simpl; lia) Er).
Qed.

Lemma optimize_grows bad_sql max_iters (st : State W) r st' :
  optimize ext runs warmup timeout_s thr bad_sql max_iters st = (r, st') ->
  grows (Z.to_nat max_iters * 35)%nat st st'.
Proof.
  unfold optimize. intros H.
  pose proof (frames_benchmark ext (VStr bad_sql) (VInt runs) (VInt warmup)
                (VInt timeout_s) st) as Hf.
  assert (Hstay : forall sb,
             same_agent st sb ->
             grows (Z.to_nat max_iters * 35)%nat st sb).
  { intros sb Hs. apply grows_frame in Hs.
    apply (grows_le 0 (Z.to_nat max_iters * 35) _ _ ltac:(lia) Hs). }
  apply bind_inv in H as [(bench & st1 & Eb & H) | (e & Eb & _)];
    rewrite Eb in Hf; simpl in Hf; [| now apply Hstay].
  rewrite bind_lift in H.
  destruct (get bench "ok" VNone) as [v | e];
    [| inversion H; subst; now apply Hstay].
  destruct (negb (truthy v)); [inversion H; subst; now apply Hstay |].
  rewrite bind_lift in H.
  destruct (getitem bench "median_ms") as [x | e];
    [| inversion H; subst; now apply Hstay].
  rewrite bind_lift in H.
  destruct (to_float x) as [f | e]; [| inversion H; subst; now apply Hstay].
  apply rounds_grows in H.
  apply (grows_trans 0 _ _ _ _ (grows_frame _ _ Hf) H).
Qed.

(** A run of [optimize] makes at most [35] Model Gateway calls in each of
    at most [max_iters] rounds, however it ends; with [max_iters <= 0] it
    makes none. *)
Theorem optimize_gateway_calls_are_bounded bad_sql max_iters (st : State W) :
  exists new,
    gateway_log
      (snd (optimize ext runs warmup timeout_s thr bad_sql max_iters st))
    = gateway_log st ++ new
    /\ (List.length new <= Z.to_nat max_iters * 35)%nat
    /\ ((max_iters <= 0)%Z -> new = []).
Proof.
  destruct (optimize ext runs warmup timeout_s thr bad_sql max_iters st)
    as [r st'] eqn:E.
  apply optimize_grows in E as (_ & new & Hl & Hn).
  exists new. simpl. split; [exact Hl |]. split; [exact Hn |].
  intros Hz. replace (Z.to_nat max_iters) with 0%nat in Hn by lia.
  destruct new; [reflexivity | simpl in Hn; lia].
Qed.

(** The agent's transcript is never reset during a run of [optimize]: each
    round continues the transcript the round before left, so the transcript
    at the end begins with the transcript at the start. *)
Theorem optimize_never_resets_the_transcript bad_sql max_iters (st : State W) :
  (exists tail,
      messages
        (snd (optimize ext runs warmup timeout_s thr bad_sql max_iters st))
      = messages st ++ tail)
  /\ (forall n b,
         exists tail,
           messages (snd (rounds ext runs warmup timeout_s thr n b st))
           = messages st ++ tail)
  /\ (forall sql,
         exists tail,
           messages
             (snd (optimize_once ext agent_cfg sql runs warmup timeout_s
                     false st))
           = messages st ++ tail).
Proof.
  split; [| split].
  - destruct (optimize ext runs warmup timeout_s thr bad_sql max_iters st)
      as [r st'] eqn:E.
    apply optimize_grows in E as (Ht & _). exact Ht.
  - intros n b.
    destruct (rounds ext runs warmup timeout_s thr n b st) as [r st'] eqn:E.
    apply rounds_grows in E as (Ht & _). exact Ht.
  - intros sql.
    destruct (optimize_once ext agent_cfg sql runs warmup timeout_s false st)
      as [r st'] eqn:E.
    apply optimize_once_grows in E as (Ht & _). exact Ht.
Qed.

End OptimizeMore.

Section OptimizeInvariant.

Context {W : Type} (ext : External W).
Variables (runs warmup timeout_s : Z) (thr : float).

Lemma judge_zero_reference b c t bench v m :
  get bench "ok" VNone = Ok v -> truthy v = true ->
  getitem bench "median_ms" = Ok (VFloat m) ->
  PrimFloat.eqb (base_ms b) 0 = true ->
  judge thr b c t bench = Raise ZeroDivisionError.
Proof.
  intros Hg Hv Hm Hz. unfold judge. rewrite Hg. simpl. rewrite Hv. simpl.
  rewrite Hm. simpl. rewrite Hz. reflexivity.
Qed.

(** What a round leaves: the locals it began with, or a candidate that was
    extracted from the model's final text, is not empty and measured
    strictly less than the reference. *)
Lemma round_adopts b (st : State W) b' flow st' :
  round ext runs warmup timeout_s thr b st = (Ok (b', flow), st') ->
  b' = b
  \/ exists c t bench m,
       _extract_sql_from_model t = Some c
       /\ c <> EmptyString
       /\ getitem bench "median_ms" = Ok (VFloat m)
       /\ PrimFloat.ltb m (base_ms b) = true
       /\ b' = adopted b c t bench m.
Proof.
  unfold round. intros H.
  apply bind_inv in H as [(out & st1 & Hd & Hk) | (e & _ & Hr)];
    [| discriminate].
  cbv zeta in Hk.
  destruct (_extract_sql_from_model (final_text_of out)) as [cand |] eqn:Ex;
    [| inversion Hk; now left].
  destruct (String.eqb_spec cand ""); [inversion Hk; now left |].
  apply bind_inv in Hk as [(bench & st2 & Hb & Hj) | (e & _ & Hr)];
    [| discriminate].
  unfold lift in Hj. inversion Hj as [[Hj' Hs]].
  apply judge_inv in Hj' as [-> | (m & Hm & Hl & ->)]; [now left |].
  right. exists cand, (final_text_of out), bench, m. auto.
Qed.

Lemma adopted_coherent b c t bench m :
  c <> EmptyString ->
  getitem bench "median_ms" = Ok (VFloat m) ->
  coherent (adopted b c t bench m).
Proof.
  intros Hc Hm. right. do 3 eexists. split; [reflexivity |].
  split; [exact Hm | exact Hc].
Qed.

Lemma rounds_coherent n : forall b (st : State W) b' st',
  coherent b ->
  rounds ext runs warmup timeout_s thr n b st = (Ok b', st') ->
  coherent b'.
Proof.
  induction n as [| n IH]; intros b st b' st' Hc H.
  - inversion H; subst. exact Hc.
  - rewrite rounds_step in H.
    destruct (round ext runs warmup timeout_s thr b st)
      as [[[b1 flow] | e] st1] eqn:Er; [| discriminate].
    assert (H1 : coherent b1).
    { apply round_adopts in Er
        as [-> | (c & t & bench & m & _ & Hne & Hm & _ & ->)];
        [exact Hc | now apply adopted_coherent]. }
    destruct flow; [eapply IH; eassumption |].
    inversion H; subst. exact H1.
Qed.

Lemma rounds_keeps_report n : forall b (st : State W) b' st',
  best_report b <> None ->
  rounds ext runs warmup timeout_s thr n b st = (Ok b', st') ->
  best_report b' <> None.
Proof.
  induction n as [| n IH]; intros b st b' st' Hb H.
  - inversion H; subst. exact Hb.
  - rewrite rounds_step in H.
    destruct (round ext runs warmup timeout_s thr b st)
      as [[[b1 flow] | e] st1] eqn:Er; [| discriminate].
    assert (H1 : best_report b1 <> None).
    { apply round_adopts in Er
        as [-> | (c & t & bn & m & _ & _ & _ & _ & ->)];
        [exact Hb | discriminate]. }
    destruct flow; [eapply IH; eassumption |].
    inversion H; subst. exact H1.
Qed.

Lemma rounds_untouched_or_reported n : forall b (st : State W) b' st',
  rounds ext runs warmup timeout_s thr n b st = (Ok b', st') ->
  b' = b \/ best_report b' <> None.
Proof.
  induction n as [| n IH]; intros b st b' st' H.
  - inversion H. now left.
  - rewrite rounds_step in H.
    destruct (round ext runs warmup timeout_s thr b st)
      as [[[b1 flow] | e] st1] eqn:Er; [| discriminate].
    apply round_adopts in Er
      as [-> | (c & t & bn & m & _ & _ & _ & _ & ->)].
    + destruct flow; [eapply IH; exact H | inversion H; now left].
    + right. destruct flow.
      * eapply rounds_keeps_report; [| exact H]. discriminate.
      * inversion H; subst. discriminate.
Qed.

(** The locals [optimize] ends with agree with each other: without a report
    the best SQL is the input and the reference is the baseline; with a
    report, the report is that of a successful benchmark whose median is the
    reference, and the best SQL is not empty. *)
Theorem optimize_result_is_coherent bad_sql max_iters (st : State W) final st' :
  optimize ext runs warmup timeout_s thr bad_sql max_iters st
  = (Ok final, st') ->
  coherent final
  /\ (best_report final = None -> best_sql final = bad_sql)
  /\ (best_sql final <> bad_sql -> best_report final <> None).
Proof.
  unfold optimize. intros H.
  apply bind_inv in H as [(bench & st1 & Hb & H) | (e & _ & Hr)];
    [| discriminate].
  rewrite bind_lift in H.
  destruct (get bench "ok" VNone) as [v | e]; [| discriminate].
  destruct (negb (truthy v)); [discriminate |].
  rewrite bind_lift in H.
  destruct (getitem bench "median_ms") as [x | e]; [| discriminate].
  rewrite bind_lift in H.
  destruct (to_float x) as [f | e]; [| discriminate].
  split.
  - eapply rounds_coherent; [| exact H]. left. reflexivity.
  - apply rounds_untouched_or_reported in H as [-> | Hn].
    + split; [reflexivity | intros Hx; now contradiction Hx].
    + split; [intros Hx; contradiction | intros _; exact Hn].
Qed.

(** A reference of exactly zero: the first candidate whose benchmark
    succeeds makes the round, and with it the run, end with
    [ZeroDivisionError]; no improvement is computed. *)
Theorem zero_reference_raises b (st : State W) out st1 cand bench st2 v m :
  optimize_once ext agent_cfg (best_sql b) runs warmup timeout_s false st
  = (Ok out, st1) ->
  _extract_sql_from_model (final_text_of out) = Some cand ->
  cand <> EmptyString ->
  benchmark ext (VStr cand) (VInt runs) (VInt warmup) (VInt timeout_s) st1
  = (Ok bench, st2) ->
  get bench "ok" VNone = Ok v -> truthy v = true ->
  getitem bench "median_ms" = Ok (VFloat m) ->
  PrimFloat.eqb (base_ms b) 0 = true ->
  round ext runs warmup timeout_s thr b st = (Raise ZeroDivisionError, st2)
  /\ forall n,
       rounds ext runs warmup timeout_s thr (S n) b st
       = (Raise ZeroDivisionError, st2).
Proof.
  intros Hd Hx Hne Hb Hg Hv Hm Hz.
  assert (Hr : round ext runs warmup timeout_s thr b st
               = (Raise ZeroDivisionError, st2)).
  { erewrite round_judges_candidate by eassumption.
    erewrite judge_zero_reference by eassumption. reflexivity. }
  split; [exact Hr |]. intros n. rewrite rounds_step, Hr. reflexivity.
Qed.

End OptimizeInvariant.

(** The scenario run makes one gateway call. *)
Lemma optimize_gateway_calls_are_bounded_witness :
  exists new,
    gateway_log
      (snd (optimize Script.ext 1 0 60 10 Script.baseline_sql 0
              Script.scenario))
    = [] ++ new
    /\ new = [].
Proof.
  destruct (optimize_gateway_calls_are_bounded Script.ext 1 0 60 10
              Script.baseline_sql 0 Script.scenario) as (new & Hl & _ & Hz).
  exists new. split; [exact Hl | apply Hz; lia].
Defined.

(** The scenario run ends with the rewrite and its report. *)
Lemma optimize_result_is_coherent_witness :
  exists final,
    fst (optimize Script.ext 1 0 60 10 Script.baseline_sql 2 Script.scenario)
    = Ok final
    /\ coherent final
    /\ best_sql final = Script.rewritten_sql.
Proof.
  eexists. split; [vm_compute; reflexivity |].
  split; [| reflexivity].
  eapply (optimize_result_is_coherent Script.ext 1 0 60 10
            Script.baseline_sql 2 Script.scenario).
  vm_compute. reflexivity.
Defined.

(** A baseline that measured 0 ms, and a candidate that runs. *)
Lemma zero_reference_raises_witness :
  fst (round Script.ext 1 0 60 10 (Script.baseline 0)
         (Script.start [Ok [Script.reply Script.rewrite_text]]
            [Script.timed 90]))
  = Raise ZeroDivisionError.
Proof.
  edestruct (zero_reference_raises Script.ext 1 0 60 10 (Script.baseline 0)
               (Script.start [Ok [Script.reply Script.rewrite_text]]
                  [Script.timed 90]))
    as [Hr _].
  - vm_compute. reflexivity.
  - vm_compute. reflexivity.
  - discriminate.
  - vm_compute. reflexivity.
  - reflexivity.
  - reflexivity.
  - reflexivity.
  - reflexivity.
  - rewrite Hr. reflexivity.
Defined.

(* ===================================================================== *)
(** ** Further properties: the candidate *)
(* ===================================================================== *)

Lemma rstrip_empty s : Str.rstrip s = EmptyString -> Str.all_space s = true.
Proof.
  induction s as [| c s IH]; [reflexivity |].
  rewrite rstrip_cons. destruct (Str.rstrip s) eqn:E; [| discriminate].
  destruct (Str.is_space c) eqn:Ec; [| discriminate].
  intros _. simpl. rewrite Ec. now apply IH.
Qed.

Lemma strip_empty s : Str.strip s = EmptyString -> Str.all_space s = true.
Proof.
  unfold Str.strip. induction s as [| c s IH]; [reflexivity |].
  simpl. destruct (Str.is_space c) eqn:Ec; [exact IH |].
  intros H. apply rstrip_empty in H. simpl in H. rewrite Ec in H.
  discriminate.
Qed.

Lemma lower_char_keeps_letters c :
  Str.is_space c = true -> Str.lower_char c <> "s"%char.
Proof.
  destruct c as [[] [] [] [] [] [] [] []]; vm_compute; intros H;
    discriminate.
Qed.

Lemma blank_has_no_select s :
  Str.all_space s = true -> Str.contains "select" (Str.lower s) = false.
Proof.
  induction s as [| c s IH]; intros H; [reflexivity |].
  simpl in H. apply andb_true_iff in H as [Hc Hs].
  simpl Str.lower. rewrite contains_eq, (IH Hs), orb_false_r.
  change (Str.starts_with "select" (String (Str.lower_char c) (Str.lower s)))
    with (Ascii.eqb "s" (Str.lower_char c)
          && Str.starts_with "elect" (Str.lower s))%bool.
  destruct (Ascii.eqb_spec "s"%char (Str.lower_char c)) as [E | _];
    [| reflexivity].
  symmetry in E. now apply lower_char_keeps_letters in E.
Qed.

(** A candidate has no white space around it; and it is empty only when it
    comes from a fenced block that holds nothing but white space: the
    whole text is never returned as an empty candidate. *)
Theorem candidate_is_stripped text c :
  _extract_sql_from_model text = Some c ->
  Str.strip c = c
  /\ (c = EmptyString ->
      exists body, first_fenced_block text body /\ Str.all_space body = true).
Proof.
  unfold _extract_sql_from_model.
  destruct (String.eqb text ""); [discriminate |].
  destruct (SQL_BLOCK_RE_search text) as [g |] eqn:Es.
  - intros H. inversion H; subst. split; [apply strip_idempotent |].
    intros He. exists g. split; [now apply search_only_finds_first_block |].
    now apply strip_empty.
  - destruct (Str.contains "select" (Str.lower text)) eqn:Ek; [| discriminate].
    intros H. inversion H; subst. split; [apply strip_idempotent |].
    intros He. apply strip_empty, blank_has_no_select in He.
    rewrite He in Ek. discriminate.
Qed.

(** A bare statement with white space around it. *)
Lemma candidate_is_stripped_witness :
  Str.strip "select 1" = "select 1"%string
  /\ ("select 1"%string = EmptyString ->
      exists body,
        first_fenced_block "  select 1  " body
        /\ Str.all_space body = true).
Proof.
  apply (candidate_is_stripped "  select 1  " "select 1"). reflexivity.
Defined.

(* ===================================================================== *)
(** ** Further properties: dispatch and the tool schema *)
(* ===================================================================== *)

Lemma has_key_names (props : Dict) k :
  has_key props k = existsb (String.eqb k) (map fst props).
Proof.
  unfold has_key. induction props as [| [k' v] props IH]; [reflexivity |].
  simpl. rewrite (String.eqb_sym k k').
  destruct (String.eqb k' k); [reflexivity | exact IH].
Qed.

Lemma declared_keys (props d : Dict) :
  forallb (fun kv => has_key props (fst kv)) d
  = keys_within (map fst props) d.
Proof.
  unfold keys_within. induction d as [| kv d IH]; [reflexivity |].
  simpl. now rewrite IH, has_key_names.
Qed.

Section SchemaClaims.

Context {W : Type} (ext : External W).

Ltac known_key H :=
  match type of H with
  | has_key ?d ?k = true =>
      unfold has_key in H;
      let v := fresh "v" in
      let E := fresh "E" in
      destruct (assoc_get d k) as [v |] eqn:E; [clear H | discriminate H]
  end.

(** Arguments that conform to the schema of a tool always bind: the
    dispatch of each of the five tools of [TOOLS_SPEC] then is the call of
    the tooling with the arguments given and, for those left out, the
    defaults the schema declares (which are the defaults of the methods). *)
Theorem schema_conforming_arguments_bind spec d (st : State W) :
  In spec TOOLS_SPEC ->
  conforms spec d = true ->
  registered (field spec "name") = true
  /\ _dispatch ext (field spec "name") (VDict d) st
     = declared_call ext spec d st.
Proof.
  intros Hin Hc. split.
  - repeat (destruct Hin as [<- | Hin]; [reflexivity |]). destruct Hin.
  - unfold conforms in Hc. rewrite declared_keys in Hc.
    apply andb_true_iff in Hc as [Hk Hr].
    repeat (destruct Hin as [<- | Hin]; [| ]); try destruct Hin.
    1: reflexivity.
    all: cbn in Hk, Hr; rewrite andb_true_r in Hr; known_key Hr;
      unfold _dispatch, declared_call;
      cbn [field dget assoc_get eq_str String.eqb Ascii.eqb Bool.eqb andb];
      unfold call_kwargs; cbn [map fst]; rewrite Hk;
      unfold bind_params, dget; rewrite ?E;
      repeat match goal with
             | |- context [assoc_get ?x ?k] => destruct (assoc_get x k)
             end;
      reflexivity.
Qed.

(** Arguments that do not conform, or are no mapping at all, make the
    dispatch of every tool that takes arguments raise [TypeError] before
    the tool is called; nothing is returned and nothing changes. *)
Theorem other_arguments_raise_type_error spec args (st : State W) :
  In spec TOOLS_SPEC ->
  eq_str (field spec "name") "list_tables" = false ->
  (forall d, args = VDict d -> conforms spec d = false) ->
  _dispatch ext (field spec "name") args st = (Raise TypeError, st).
Proof.
  intros Hin Hn Hc.
  repeat (destruct Hin as [<- | Hin]; [| ]); try destruct Hin;
    [discriminate Hn | | | |].
  all: unfold _dispatch;
    cbn [field dget assoc_get eq_str String.eqb Ascii.eqb Bool.eqb andb];
    destruct args as [| | | | | | d]; try reflexivity;
    specialize (Hc d eq_refl); unfold conforms in Hc;
    rewrite declared_keys in Hc; cbn in Hc; rewrite andb_true_r in Hc;
    unfold call_kwargs; cbn [map fst];
    match type of Hc with
    | (?k && _)%bool = false => destruct k; [| reflexivity]
    end;
    simpl in Hc; unfold has_key in Hc; unfold bind_params;
    match type of Hc with
    | context [assoc_get ?x ?k] => destruct (assoc_get x k)
    end; [discriminate Hc | reflexivity].
Qed.

End SchemaClaims.

(** [benchmark] asked for with its required argument only. *)
Lemma schema_conforming_arguments_bind_witness :
  registered (VStr "benchmark") = true
  /\ _dispatch Script.ext (VStr "benchmark") (VDict [("sql", VStr "q")])
       (Script.start [] [])
     = benchmark Script.ext (VStr "q") (VInt 3) (VInt 1) (VInt 60)
         (Script.start [] []).
Proof.
  apply (schema_conforming_arguments_bind Script.ext
           (nth 4 TOOLS_SPEC VNone) [("sql", VStr "q")] (Script.start [] []));
    [do 4 right; left; reflexivity | reflexivity].
Defined.

(** [describe_relation] asked for with a property it does not declare. *)
Lemma other_arguments_raise_type_error_witness :
  _dispatch Script.ext (VStr "describe_relation")
    (VDict [("name", VStr "orders"); ("limit", VInt 5)]) (Script.start [] [])
  = (Raise TypeError, Script.start [] []).
Proof.
  apply (other_arguments_raise_type_error Script.ext
           (nth 2 TOOLS_SPEC VNone)
           (VDict [("name", VStr "orders"); ("limit", VInt 5)])
           (Script.start [] []));
    [do 2 right; left; reflexivity | reflexivity |].
  intros d H. inversion H; subst. reflexivity.
Defined.

(* ===================================================================== *)
(** ** Further properties: extract_table_refs *)
(* ===================================================================== *)

Lemma seen_iff r seen :
  existsb (String.eqb r) seen = true <-> In r seen.
Proof.
  rewrite existsb_exists. split.
  - intros (x & Hin & He). apply String.eqb_eq in He. now subst.
  - intros Hin. exists r. split; [exact Hin | apply String.eqb_refl].
Qed.

Lemma dedup_spec refs : forall seen,
  NoDup (dedup refs seen)
  /\ forall r, In r (dedup refs seen) <-> (In r refs /\ ~ In r seen).
Proof.
  induction refs as [| x refs IH]; intros seen; simpl.
  - split; [constructor | intros r; tauto].
  - destruct (existsb (String.eqb x) seen) eqn:E.
    + apply seen_iff in E. destruct (IH seen) as [Hn Hi].
      split; [exact Hn |]. intros r. rewrite Hi. split.
      * intros [H1 H2]. auto.
      * intros [[-> | H1] H2]; [contradiction | auto].
    + assert (Hx : ~ In x seen).
      { intros Hin. apply seen_iff in Hin. congruence. }
      destruct (IH (x :: seen)) as [Hn Hi]. split.
      * constructor; [| exact Hn]. rewrite Hi. simpl. tauto.
      * intros r. simpl. rewrite Hi. simpl. split.
        -- intros [<- | [H1 H2]]; [auto | tauto].
        -- intros [[<- | H1] H2]; [now left |].
           destruct (string_dec x r) as [-> | Hne]; [now left |].
           right. split; [exact H1 | tauto].
Qed.

Lemma dedup_of_distinct refs : forall seen,
  NoDup refs -> (forall r, In r refs -> ~ In r seen) ->
  dedup refs seen = refs.
Proof.
  induction refs as [| x refs IH]; intros seen Hn Hs; [reflexivity |].
  simpl. inversion Hn as [| ? ? Hx Hn']; subst.
  destruct (existsb (String.eqb x) seen) eqn:E.
  - apply seen_iff in E. exfalso. apply (Hs x); [now left | exact E].
  - f_equal. apply IH; [exact Hn' |].
    intros r Hr [<- | Hin]; [contradiction |].
    apply (Hs r); [now right | exact Hin].
Qed.

(** [extract_table_refs] returns every reference the pattern finds, each
    one once; when the pattern finds no reference twice, it returns them
    as found, in their order. *)
Theorem extract_table_refs_keeps_each_reference_once sql :
  NoDup (extract_table_refs sql)
  /\ (forall r, In r (extract_table_refs sql)
                <-> In r (TABLE_REGEX_finditer sql))
  /\ (NoDup (TABLE_REGEX_finditer sql) ->
      extract_table_refs sql = TABLE_REGEX_finditer sql)
  /\ hd_error (extract_table_refs sql) = hd_error (TABLE_REGEX_finditer sql).
Proof.
  unfold extract_table_refs.
  destruct (dedup_spec (TABLE_REGEX_finditer sql) []) as [Hn Hi].
  split; [exact Hn |]. split; [| split].
  - intros r. rewrite Hi. simpl. tauto.
  - intros Hd. apply dedup_of_distinct; [exact Hd | intros r _ []].
  - destruct (TABLE_REGEX_finditer sql); reflexivity.
Qed.

Lemma starts_with_ci_lower p : forall s,
  starts_with_ci p s = Str.starts_with (Str.lower p) (Str.lower s).
Proof.
  induction p as [| a p IH]; intros s; [reflexivity |].
  destruct s as [| b s]; [reflexivity |]. simpl. now rewrite IH.
Qed.

Lemma finditer_without_keyword s : forall skip,
  Str.contains "from" (Str.lower s) = false ->
  Str.contains "join" (Str.lower s) = false ->
  finditer skip s = [].
Proof.
  induction s as [| c s IH]; intros skip Hf Hj; [reflexivity |].
  rewrite contains_eq in Hf, Hj.
  apply orb_false_elim in Hf as [Hf1 Hf2].
  apply orb_false_elim in Hj as [Hj1 Hj2].
  simpl Str.lower in Hf2, Hj2.
  simpl finditer. destruct skip as [| k]; [| now apply IH].
  unfold TABLE_REGEX_match.
  rewrite !starts_with_ci_lower.
  change (Str.lower "from") with "from"%string.
  change (Str.lower "join") with "join"%string.
  rewrite Hf1, Hj1. simpl orb. cbv iota. now apply IH.
Qed.

(** A text of code points below 256 in which neither [from] nor [join]
    occurs, in any case, has no table reference. *)
Theorem no_keyword_no_table_refs sql :
  Str.contains "from" (Str.lower sql) = false ->
  Str.contains "join" (Str.lower sql) = false ->
  extract_table_refs sql = [].
Proof.
  intros Hf Hj. unfold extract_table_refs, TABLE_REGEX_finditer.
  now rewrite finditer_without_keyword.
Qed.

Lemma ident_well_begun s r rest : ident s = Some (r, rest) -> well_begun r.
Proof.
  destruct s as [| c s]; [discriminate |]. simpl.
  destruct (is_ident_start c) eqn:Ec; [| discriminate].
  destruct (word_run s) as [w t]. intros H. inversion H; subst.
  exists c, w. split; [reflexivity | exact Ec].
Qed.

Lemma reference_well_begun s r rest :
  reference s = Some (r, rest) -> well_begun r.
Proof.
  unfold reference. destruct (ident s) as [[r1 t] |] eqn:Ei; [| discriminate].
  apply ident_well_begun in Ei as (c & r' & -> & Hc).
  assert (Hq : forall r2, well_begun (String c r' ++ "." ++ r2)%string).
  { intros r2. exists c, (r' ++ "." ++ r2)%string. split; [reflexivity | exact Hc]. }
  assert (Hp : well_begun (String c r')).
  { exists c, r'. split; [reflexivity | exact Hc]. }
  destruct t as [| d t]; [intros H; inversion H; subst; exact Hp |].
  destruct (Ascii.eqb_spec d "."%char) as [-> | Hne].
  - destruct (ident t) as [[r2 t2] |]; intros H; inversion H; subst;
      [apply Hq | exact Hp].
  - destruct d as [[] [] [] [] [] [] [] []];
      try (intros H; inversion H; subst; exact Hp).
    contradiction Hne. reflexivity.
Qed.

Lemma after_spaces_well_begun s : forall r rest,
  after_spaces s = Some (r, rest) -> well_begun r.
Proof.
  induction s as [| c s IH]; intros r rest H; simpl in H; [discriminate |].
  destruct (Str.is_space c); [| discriminate].
  destruct (after_spaces s) as [[r0 t0] |] eqn:Ea.
  - inversion H; subst. eapply IH. reflexivity.
  - eapply reference_well_begun. exact H.
Qed.

Lemma finditer_well_begun s : forall skip,
  Forall well_begun (finditer skip s).
Proof.
  induction s as [| c s IH]; intros skip; simpl; [constructor |].
  destruct skip as [| k]; [| apply IH].
  destruct (TABLE_REGEX_match (String c s)) as [[r rest] |] eqn:Em;
    [| apply IH].
  constructor; [| apply IH].
  unfold TABLE_REGEX_match in Em.
  destruct (starts_with_ci "from" (String c s)
            || starts_with_ci "join" (String c s))%bool; [| discriminate].
  eapply after_spaces_well_begun. exact Em.
Qed.

(** Every reference [extract_table_refs] returns for a text of code points
    below 256 begins with an ASCII letter or an underscore; in particular
    none is empty, and what follows [from] or [join] is no reference when
    it begins otherwise (a parenthesis, a quote, a digit, an accented
    letter). *)
Theorem table_refs_begin_with_a_letter sql :
  Forall well_begun (extract_table_refs sql).
Proof.
  apply Forall_forall. intros r Hr.
  apply (proj1 (proj2 (dedup_spec (TABLE_REGEX_finditer sql) []) r)) in Hr.
  destruct Hr as [Hr _].
  pose proof (finditer_well_begun sql 0) as Hf.
  rewrite Forall_forall in Hf. now apply Hf.
Qed.

(** A statement with no table. *)
Lemma no_keyword_no_table_refs_witness :
  extract_table_refs "SELECT 1 + 1 AS two" = [].
Proof. apply no_keyword_no_table_refs; reflexivity. Defined.

(** A table named twice, and a schema-qualified one. *)
Lemma extract_table_refs_keeps_each_reference_once_witness :
  NoDup (extract_table_refs
           "SELECT * FROM orders o JOIN public.customers c ON o.cid=c.id JOIN orders x")
  /\ extract_table_refs
       "SELECT * FROM orders o JOIN public.customers c ON o.cid=c.id JOIN orders x"
     = ["orders"; "public.customers"]%string.
Proof.
  split; [| reflexivity].
  apply (proj1 (extract_table_refs_keeps_each_reference_once
                  "SELECT * FROM orders o JOIN public.customers c ON o.cid=c.id JOIN orders x")).
Defined.

(* ===================================================================== *)
(** ** The catalog methods *)
(* ===================================================================== *)

Lemma contains_dot_cons c s :
  Str.contains "." (String c s)
  = (Ascii.eqb "."%char c || Str.contains "." s)%bool.
Proof.
  rewrite contains_eq. cbn [Str.starts_with].
  now rewrite andb_true_r.
Qed.

Lemma split_first_app a : forall b,
  Str.contains "." a = false ->
  split_first (a ++ "." ++ b) = (a, b)
  /\ Str.contains "." (a ++ "." ++ b) = true.
Proof.
  induction a as [| c a IH]; intros b H.
  - split; reflexivity.
  - rewrite contains_dot_cons in H. apply orb_false_iff in H as [Hc Ha].
    destruct (IH b Ha) as [Hs Hd].
    change ((String c a ++ "." ++ b)%string)
      with (String c (a ++ "." ++ b)%string).
    split.
    + cbn [split_first]. rewrite Ascii.eqb_sym, Hc, Hs. reflexivity.
    + rewrite contains_dot_cons, Hd. apply orb_true_r.
Qed.

Lemma group_rows_snoc rows r :
  group_rows (rows ++ [r])
  = setdefault_append (group_rows rows) (schema_of r) (entry_of r).
Proof.
  unfold group_rows. rewrite fold_left_app.
  destruct r as [[s c] t]. reflexivity.
Qed.

Lemma dedup_snoc l x : forall seen,
  dedup (l ++ [x]) seen
  = dedup l seen
    ++ (if (existsb (String.eqb x) l || existsb (String.eqb x) seen)%bool
        then [] else [x]).
Proof.
  induction l as [| y l IH]; intros seen.
  - simpl. destruct (existsb (String.eqb x) seen); reflexivity.
  - cbn [app dedup existsb].
    destruct (existsb (String.eqb y) seen) eqn:Ey.
    + rewrite IH. f_equal.
      destruct (String.eqb x y) eqn:Exy; [| reflexivity].
      apply String.eqb_eq in Exy. subst y. rewrite Ey.
      now rewrite orb_true_r.
    + rewrite IH. cbn [app existsb]. f_equal. f_equal.
      destruct (String.eqb x y), (existsb (String.eqb x) l),
        (existsb (String.eqb x) seen); reflexivity.
Qed.

Lemma existsb_dedup x l :
  existsb (String.eqb x) (dedup l []) = existsb (String.eqb x) l.
Proof.
  destruct (dedup_spec l []) as [_ Hi].
  destruct (existsb (String.eqb x) l) eqn:E.
  - apply seen_iff. apply Hi. split; [now apply seen_iff | intros []].
  - destruct (existsb (String.eqb x) (dedup l [])) eqn:E'; [| reflexivity].
    apply seen_iff in E'. apply Hi in E' as [E' _].
    apply seen_iff in E'. congruence.
Qed.

Lemma setdefault_append_map (f : string -> list PyVal) k0 x D :
  NoDup D ->
  setdefault_append (map (fun k => (k, f k)) D) k0 x
  = if existsb (String.eqb k0) D
    then map (fun k => (k, f k ++ (if String.eqb k0 k then [x] else []))) D
    else map (fun k => (k, f k)) D ++ [(k0, [x])].
Proof.
  induction D as [| k D IH]; intros Hn; [reflexivity |].
  inversion Hn as [| ? ? Hk Hn']; subst.
  cbn [map setdefault_append existsb].
  rewrite (String.eqb_sym k k0).
  destruct (String.eqb k0 k) eqn:E.
  - apply String.eqb_eq in E. subst k0. cbn [orb]. f_equal.
    apply map_ext_in. intros k' Hin.
    destruct (String.eqb k k') eqn:E'.
    + apply String.eqb_eq in E'. subst k'. contradiction.
    + now rewrite app_nil_r.
  - cbn [orb]. rewrite (IH Hn').
    destruct (existsb (String.eqb k0) D).
    + now rewrite app_nil_r.
    + reflexivity.
Qed.

Lemma columns_of_snoc rows r k :
  columns_of (rows ++ [r]) k
  = columns_of rows k
    ++ (if String.eqb (schema_of r) k then [entry_of r] else []).
Proof.
  unfold columns_of. rewrite filter_app, map_app. cbn [filter].
  destruct (String.eqb (schema_of r) k); reflexivity.
Qed.

Lemma columns_of_absent rows k :
  existsb (String.eqb k) (map schema_of rows) = false ->
  columns_of rows k = [].
Proof.
  induction rows as [| r rows IH]; intros H; [reflexivity |].
  cbn [map existsb] in H. apply orb_false_iff in H as [H1 H2].
  unfold columns_of. cbn [filter].
  rewrite String.eqb_sym, H1. now apply IH.
Qed.

(** The loop that groups the fetched rows by schema: the schemas are keys in
    the order in which they first occur among the rows, each once, and the
    group of a schema holds the entries of all its rows, in the order of
    the rows, whether or not the rows of a schema are next to each
    other. *)
Theorem rows_are_grouped_by_schema rows :
  group_rows rows
  = map (fun k => (k, columns_of rows k)) (dedup (map schema_of rows) []).
Proof.
  induction rows as [| r rows IH] using rev_ind; [reflexivity |].
  rewrite group_rows_snoc, IH, map_app. cbn [map].
  rewrite dedup_snoc. cbn [existsb]. rewrite orb_false_r.
  rewrite setdefault_append_map by apply dedup_spec.
  rewrite existsb_dedup.
  destruct (existsb (String.eqb (schema_of r)) (map schema_of rows)) eqn:E.
  - rewrite app_nil_r. apply map_ext. intros k.
    now rewrite columns_of_snoc.
  - rewrite map_app. cbn [map]. f_equal.
    + apply map_ext_in. intros k Hin.
      rewrite columns_of_snoc.
      destruct (String.eqb (schema_of r) k) eqn:Ek; [| now rewrite app_nil_r].
      apply String.eqb_eq in Ek. subst k.
      apply seen_iff in Hin. rewrite existsb_dedup in Hin. congruence.
    + rewrite columns_of_snoc, String.eqb_refl.
      now rewrite (columns_of_absent _ _ E).
Qed.

Section CatalogFacts.

Context {W : Type} (ext : External W) (cat : Catalog W).

(** [table_exists] on a name with a dot asks the catalog for the text
    before the first dot as the schema and all the text after it as the
    table, further dots included; it answers [ok] with [exists] telling
    whether the count is positive, and raises only what the query
    raises. *)
Theorem table_exists_splits_at_the_first_dot schema table (w : W) :
  Str.contains "." schema = false ->
  table_exists_body cat (VStr (schema ++ "." ++ table)) w
  = match count_in_schema cat schema table w with
    | (Ok n, w') =>
        (Ok (VDict [("ok", VBool true);
                    ("name", VStr (schema ++ "." ++ table));
                    ("exists", VBool (0 <? n)%Z)]), w')
    | (Raise e, w') => (Raise e, w')
    end.
Proof.
  intros H. destruct (split_first_app schema table H) as [Hs Hd].
  unfold table_exists_body, dot_in. rewrite Hd, Hs. reflexivity.
Qed.

Lemma dispatch_describe_relation n (st : State W) :
  _dispatch (tooling ext cat) (VStr "describe_relation")
    (VDict [("name", n)]) st
  = on_world (describe_relation_body ext cat n (VInt 200)) st.
Proof. reflexivity. Qed.

Lemma dispatch_table_exists n (st : State W) :
  _dispatch (tooling ext cat) (VStr "table_exists") (VDict [("name", n)]) st
  = on_world (table_exists_body cat n) st.
Proof. reflexivity. Qed.

(** [describe_relation] requested with a qualified name only: the answer
    lists the first 200 columns the catalog holds for the relation, in the
    order fetched, while [num_columns] counts them all. *)
Theorem describe_relation_lists_the_first_columns schema table rows
    (st : State W) w' :
  Str.contains "." schema = false ->
  columns_in_schema cat schema table (world st) = (Ok rows, w') ->
  rows <> [] ->
  exists v,
    _dispatch (tooling ext cat) (VStr "describe_relation")
      (VDict [("name", VStr (schema ++ "." ++ table))]) st
    = (Ok v, set_world st w')
    /\ field v "ok" = VBool true
    /\ field v "columns"
       = VList (map (fun '(c, t) => VDict [("name", VStr c); ("type", VStr t)])
                    (firstn 200 rows))
    /\ field v "num_columns" = VInt (Z.of_nat (List.length rows)).
Proof.
  intros H Hq Hr. destruct (split_first_app schema table H) as [Hs Hd].
  rewrite dispatch_describe_relation.
  unfold on_world, describe_relation_body, dot_in. rewrite Hd, Hs, Hq.
  destruct rows as [| r rows]; [contradiction |].
  eexists. split; [reflexivity |]. repeat split.
Qed.

(** A relation the catalog holds no column of is reported as not found,
    with its name in the error text, whatever [sample_cols] is: the
    argument is not looked at before the relation is found. *)
Theorem unknown_relation_is_reported name k (w w' : W) :
  (Str.contains "." name = false
   /\ columns_named cat (VStr name) w = (Ok [], w'))
  \/ (exists schema table,
        name = (schema ++ "." ++ table)%string
        /\ Str.contains "." schema = false
        /\ columns_in_schema cat schema table w = (Ok [], w')) ->
  describe_relation_body ext cat (VStr name) k w
  = (Ok (VDict [("ok", VBool false);
                ("error",
                 VStr ("Relation not found in catalog: " ++ name))]), w').
Proof.
  intros [[Hd Hq] | (schema & table & -> & H & Hq)].
  - unfold describe_relation_body, dot_in. rewrite Hd, Hq. reflexivity.
  - destruct (split_first_app schema table H) as [Hs Hd].
    unfold describe_relation_body, dot_in. rewrite Hd, Hs, Hq. reflexivity.
Qed.

(** An exception of the connection during [table_exists] is not caught: it
    leaves the tool and the dialogue loop, and no tool-result record
    answers the request. *)
Theorem catalog_fault_aborts_the_loop n ev (st : State W) arguments name
    w e w' :
  responses_create ext (messages st) (world st)
  = (Ok [table_exists_call arguments], w) ->
  json_loads ext arguments = Some (VDict [("name", VStr name)]) ->
  Str.contains "." name = false ->
  count_named cat (VStr name) w = (Raise e, w') ->
  tool_loop (tooling ext cat) (S n) ev st
  = (Raise e,
     {| messages := messages st ++ [VDict (table_exists_call arguments)];
        world := w';
        gateway_log :=
          gateway_log st
          ++ [(messages st, Ok [table_exists_call arguments])] |}).
Proof.
  intros Hg Hj Hd Hq.
  rewrite (tool_loop_single_call (tooling ext cat) n ev st
             (table_exists_call arguments) w Hg eq_refl).
  unfold bind at 1. unfold handle_call.
  cbn [dget assoc_get table_exists_call String.eqb Ascii.eqb Bool.eqb].
  unfold decode_arguments. cbn [json_loads tooling]. rewrite Hj.
  unfold bind at 1. rewrite dispatch_table_exists.
  unfold on_world, table_exists_body, dot_in. cbn [world].
  rewrite Hd, Hq. reflexivity.
Qed.

End CatalogFacts.

Lemma table_exists_splits_at_the_first_dot_witness :
  Str.contains "." "main" = false
  /\ fst (table_exists_body Shelf.catalog (VStr "main.orders.v2")
            (world (Script.start [] [])))
     = Ok (VDict [("ok", VBool true);
                  ("name", VStr "main.orders.v2");
                  ("exists", VBool false)]).
Proof.
  split; [reflexivity |].
  rewrite (table_exists_splits_at_the_first_dot Shelf.catalog
             "main" "orders.v2" _ eq_refl).
  reflexivity.
Defined.

Lemma describe_relation_lists_the_first_columns_witness :
  exists v,
    _dispatch Shelf.ext (VStr "describe_relation")
      (VDict [("name", VStr "main.orders")]) (Script.start [] [])
    = (Ok v, Script.start [] [])
    /\ field v "num_columns" = VInt 3.
Proof.
  destruct (describe_relation_lists_the_first_columns Script.ext Shelf.catalog
              "main" "orders" Shelf.orders_columns (Script.start [] [])
              (world (Script.start [] [])) eq_refl eq_refl
              ltac:(discriminate))
    as (v & Hv & _ & _ & Hn).
  exists v. split; [exact Hv | exact Hn].
Defined.

Lemma unknown_relation_is_reported_witness :
  describe_relation_body Script.ext Shelf.catalog (VStr "customers")
    (VStr "many") (world (Script.start [] []))
  = (Ok (VDict [("ok", VBool false);
                ("error",
                 VStr "Relation not found in catalog: customers")]),
     world (Script.start [] [])).
Proof.
  apply (unknown_relation_is_reported Script.ext Shelf.catalog "customers").
  left. split; reflexivity.
Defined.

Lemma catalog_fault_aborts_the_loop_witness :
  fst (tool_loop (tooling Shelf.reader Shelf.closed) 2 []
         (Script.start [Ok [table_exists_call Shelf.orders_arguments]] []))
  = Raise (ExternalError "connection closed").
Proof.
  rewrite (catalog_fault_aborts_the_loop Shelf.reader Shelf.closed 1 []
             (Script.start [Ok [table_exists_call Shelf.orders_arguments]] [])
             Shelf.orders_arguments "orders"
             (world (Script.start [] []))
             (ExternalError "connection closed")
             (world (Script.start [] []))
             eq_refl eq_refl eq_refl eq_refl).
  reflexivity.
Defined.
